(** * Slam_v1.py, monocular visual odometry: model and verified properties

    The program is embedded shallowly.  Numbers are IEEE-754 binary64 values
    (Rocq's primitive floats, the arithmetic of [np.float64]; the [float32]
    arrays of pixel positions and of OpenCV outputs are carried at that
    precision); arrays are row-major lists, and sums over an axis accumulate
    from left to right.  The object [vo] and the module-level variables of
    the video loop are records threaded through the functions that mutate
    them; a Python exception is a value of the [result] type.

    What the program calls but does not define (ORB detection, FLANN
    matching, [cv2.findEssentialMat], [cv2.decomposeEssentialMat],
    [cv2.triangulatePoints], [cv2.imread], the directory listing) is the
    interface [OpenCV]: every definition and theorem holds for any
    implementation of it.  The types of the interface carry the shapes OpenCV
    documents: 3x3 and 3x1 for a decomposition, 4xN for triangulated points. *)

From Stdlib Require Import String.
From Stdlib Require Import Floats ZArith List Bool Lia PeanoNat.
Import ListNotations.

Set Implicit Arguments.

(* ================================================================== *)
(** * Floating point *)

Module F.

Definition zero : float := 0%float.
Definition one : float := 1%float.
Definition half : float := 0.5%float.

Definition isnan (x : float) : bool := PrimFloat.is_nan x.
Definition isinf (x : float) : bool := PrimFloat.is_infinity x.

(** Neither NaN nor an infinity. *)
Definition finite (x : float) : bool := negb (isnan x) && negb (isinf x).

(** [int] to [float] conversion of a non-negative count. *)
Definition of_nat (n : nat) : float := PrimFloat.of_uint63 (Uint63.of_Z (Z.of_nat n)).
Definition of_Z (z : Z) : float :=
  if (z <? 0)%Z then PrimFloat.opp (PrimFloat.of_uint63 (Uint63.of_Z (- z)))
  else PrimFloat.of_uint63 (Uint63.of_Z z).

(** A zero of either sign. *)
Definition zero_like (x : float) : Prop := exists s, Prim2SF x = S754_zero s.

(** Equal, or zeros that differ at most in sign. *)
Definition same_value (u x : float) : Prop := u = x \/ (zero_like u /\ zero_like x).

End F.

(* ================================================================== *)
(** * Python run-time: exceptions and sequence indexing *)

Inductive exn : Type := ValueError | IndexError.

Inductive result (A : Type) : Type :=
| Ok (a : A)
| Raise (e : exn).
Arguments Ok {A} a.
Arguments Raise {A} e.

Definition bind {A B} (r : result A) (k : A -> result B) : result B :=
  match r with
  | Ok a => k a
  | Raise e => Raise e
  end.

Notation "x <- c1 ;; c2" := (bind c1 (fun x => c2))
  (at level 61, c1 at next level, right associativity).

(** [[f(x) for x in l]] where [f] may raise: the first exception escapes. *)
Fixpoint comprehension {A B} (f : A -> result B) (l : list A) : result (list B) :=
  match l with
  | [] => Ok []
  | x :: xs => y <- f x ;; ys <- comprehension f xs ;; Ok (y :: ys)
  end.

(** [l[i]]: negative indices count from the end, anything else out of range
    raises [IndexError]. *)
Definition getitem {A} (l : list A) (i : Z) : result A :=
  let n := Z.of_nat (length l) in
  let j := if (i <? 0)%Z then (n + i)%Z else i in
  if ((0 <=? j) && (j <? n))%Z then
    match nth_error l (Z.to_nat j) with
    | Some a => Ok a
    | None => Raise IndexError
    end
  else Raise IndexError.

(** [l[::step]] for a positive step. *)
Fixpoint slice_step_aux {A} (fuel : nat) (step : nat) (l : list A) : list A :=
  match fuel with
  | O => []
  | S fuel' =>
      match l with
      | [] => []
      | x :: _ => x :: slice_step_aux fuel' step (skipn step l)
      end
  end.

Definition slice_step {A} (l : list A) (step : nat) : list A :=
  slice_step_aux (length l) step l.

(* ================================================================== *)
(** * numpy *)

Module Np.

(** One- and two-dimensional [float64] arrays; a 2-D array is its list of rows. *)
Definition array1 : Type := list float.
Definition array2 : Type := list (list float).

Fixpoint map2 {A B C} (f : A -> B -> C) (l : list A) (l' : list B) : list C :=
  match l, l' with
  | a :: t, b :: t' => f a b :: map2 f t t'
  | _, _ => []
  end.

(** [np.any(np.isnan(A))], [np.any(np.isinf(A))]. *)
Definition any_isnan1 (v : array1) : bool := existsb F.isnan v.
Definition any_isinf1 (v : array1) : bool := existsb F.isinf v.
Definition any_isnan (A : array2) : bool := existsb any_isnan1 A.
Definition any_isinf (A : array2) : bool := existsb any_isinf1 A.

Definition all_finite1 (v : array1) : bool := forallb F.finite v.
Definition all_finite (A : array2) : bool := forallb all_finite1 A.

(** [np.array_equal(A, B)]: same shape and [==] on every entry. *)
Fixpoint array_equal1 (u v : array1) : bool :=
  match u, v with
  | [], [] => true
  | x :: u', y :: v' => PrimFloat.eqb x y && array_equal1 u' v'
  | _, _ => false
  end.

Fixpoint array_equal (A B : array2) : bool :=
  match A, B with
  | [], [] => true
  | u :: A', v :: B' => array_equal1 u v && array_equal A' B'
  | _, _ => false
  end.

(** [np.eye(n)], [np.identity(n)], [np.zeros((r, c))]. *)
Definition eye (n : nat) : array2 :=
  map (fun i => map (fun j => if Nat.eqb i j then F.one else F.zero) (seq 0 n)) (seq 0 n).

Definition zeros (r c : nat) : array2 := repeat (repeat F.zero c) r.

(** [np.concatenate((A, B), axis=1)] and [axis=0]. *)
Definition concatenate1 (A B : array2) : array2 := map2 (@app float) A B.
Definition concatenate0 (A B : array2) : array2 := A ++ B.

(** [np.add.reduce]: left to right, starting from the first element. *)
Definition add_reduce (v : array1) : float :=
  match v with
  | [] => F.zero
  | x :: xs => fold_left PrimFloat.add xs x
  end.

Definition ncols (A : array2) : nat :=
  match A with
  | [] => 0
  | r :: _ => length r
  end.

(** [A[:, j]] and [A.T]. *)
Definition column (j : nat) (A : array2) : array1 := map (fun r => nth j r F.zero) A.
Definition transpose (A : array2) : array2 := map (fun j => column j A) (seq 0 (ncols A)).

(** [u @ v] on vectors and [A @ B] on matrices: every entry is the dot
    product of a row with a column, accumulated from left to right. *)
Definition dot (u v : array1) : float := add_reduce (map2 PrimFloat.mul u v).
Definition matmul (A B : array2) : array2 :=
  map (fun r => map (fun j => dot r (column j B)) (seq 0 (ncols B))) A.

(** [A / w]: a row vector broadcast against every row of [A]. *)
Definition divide_rows (A : array2) (w : array1) : array2 :=
  map (fun r => map2 PrimFloat.div r w) A.

(** [A - B], elementwise. *)
Definition subtract (A B : array2) : array2 := map2 (map2 PrimFloat.sub) A B.

(** [np.linalg.norm(A, axis=-1)]: [sqrt(add.reduce(x * x))] on every row. *)
Definition norm1 (v : array1) : float :=
  PrimFloat.sqrt (add_reduce (map (fun x => PrimFloat.mul x x) v)).
Definition norm_rows (A : array2) : array1 := map norm1 A.

(** [np.mean(v)]: the sum over the number of elements (NaN when empty). *)
Definition mean (v : array1) : float :=
  PrimFloat.div (add_reduce v) (F.of_nat (length v)).

(** [sum(v > 0)]: the built-in [sum] over a boolean array. *)
Definition count_positive (v : array1) : Z :=
  fold_left (fun acc x => if PrimFloat.ltb F.zero x then (acc + 1)%Z else acc) v 0%Z.

(** [np.argmax] on an integer sequence: index of the first maximum. *)
Fixpoint argmax_from (best : Z) (best_i i : nat) (l : list Z) : nat :=
  match l with
  | [] => best_i
  | x :: xs =>
      if (best <? x)%Z then argmax_from x i (S i) xs
      else argmax_from best best_i (S i) xs
  end.

Definition argmax (l : list Z) : nat :=
  match l with
  | [] => 0
  | x :: xs => argmax_from x 0 1 xs
  end.

(** [np.argmax] on a float sequence: a later entry replaces the running
    maximum when [not (entry <= maximum)]; the first NaN met is maximal
    and ends the scan. *)
Fixpoint fargmax_from (best : float) (best_i i : nat) (l : list float) : nat :=
  match l with
  | [] => best_i
  | x :: xs =>
      if negb (PrimFloat.leb x best) then
        if F.isnan x then i else fargmax_from x i (S i) xs
      else fargmax_from best best_i (S i) xs
  end.

Definition fargmax (l : list float) : nat :=
  match l with
  | [] => 0
  | x :: xs => if F.isnan x then 0 else fargmax_from x 0 1 xs
  end.

End Np.

(* ================================================================== *)
(** * OpenCV data and entry points *)

(** [cv2.KeyPoint]: only [pt], the pixel position, is read. *)
Record KeyPoint : Type := { pt : float * float }.

(** [cv2.DMatch]. *)
Record DMatch : Type := { queryIdx : Z; trainIdx : Z; distance : float }.

(** A 3-vector and a 3x3 matrix, the shapes [decomposeEssentialMat] returns. *)
Record Vec3 : Type := { v_x : float; v_y : float; v_z : float }.
Record Mat3 : Type := { row0 : Vec3; row1 : Vec3; row2 : Vec3 }.

(** A column of the 4xN array [triangulatePoints] returns. *)
Record Hom : Type := { h_x : float; h_y : float; h_z : float; h_w : float }.

Module V3.
Definition to_array (v : Vec3) : Np.array1 := [v_x v; v_y v; v_z v].
Definition rows (R : Mat3) : Np.array2 := [to_array (row0 R); to_array (row1 R); to_array (row2 R)].
(** [-t] and [t * s] for a scalar [s]. *)
Definition neg (t : Vec3) : Vec3 :=
  {| v_x := PrimFloat.opp (v_x t); v_y := PrimFloat.opp (v_y t); v_z := PrimFloat.opp (v_z t) |}.
Definition scale (t : Vec3) (s : float) : Vec3 :=
  {| v_x := PrimFloat.mul (v_x t) s; v_y := PrimFloat.mul (v_y t) s; v_z := PrimFloat.mul (v_z t) s |}.
(** [np.squeeze] / [np.ndarray.flatten] of the 3x1 translation: shape only. *)
Definition squeeze (t : Vec3) : Vec3 := t.
Definition flatten (t : Vec3) : Vec3 := t.
End V3.

(** The 4xN array of homogeneous points, as rows x, y, z, w. *)
Definition hom_array (pts : list Hom) : Np.array2 :=
  [map h_x pts; map h_y pts; map h_z pts; map h_w pts].

Class OpenCV : Type := {
  image : Type;
  descriptors : Type;
  (** [orb.detectAndCompute(img, None)] *)
  detectAndCompute : image -> list KeyPoint * descriptors;
  (** [flann.knnMatch(des1, des2, k)] *)
  knnMatch : descriptors -> descriptors -> nat -> list (list DMatch);
  (** [cv2.findEssentialMat(q1, q2, K)], the matrix of the returned pair *)
  findEssentialMat : Np.array2 -> Np.array2 -> Np.array2 -> Np.array2;
  (** [cv2.decomposeEssentialMat(E)] *)
  decomposeEssentialMat : Np.array2 -> Mat3 * Mat3 * Vec3;
  (** [cv2.triangulatePoints(P1, P2, pts1, pts2)] *)
  triangulatePoints : Np.array2 -> Np.array2 -> Np.array2 -> Np.array2 -> list Hom;
  (** [sorted(os.listdir(dir))] and [cv2.imread(path)] ([None] when unreadable) *)
  sorted_listdir : string -> list string;
  imread : string -> option image
}.

(* ================================================================== *)
(** * class CameraPoses *)

(** The object's fields that the program reads or writes, and what its
    methods have printed. *)
Record CameraPoses : Type := {
  K : Np.array2;
  extrinsic : Np.array2;
  P : Np.array2;
  world_points : list Np.array2;
  printed : list string
}.

Definition print (self : CameraPoses) (msg : string) : CameraPoses :=
  {| K := K self; extrinsic := extrinsic self; P := P self;
     world_points := world_points self; printed := printed self ++ [msg] |}.

Definition world_points_append (self : CameraPoses) (Q : Np.array2) : CameraPoses :=
  {| K := K self; extrinsic := extrinsic self; P := P self;
     world_points := world_points self ++ [Q]; printed := printed self |}.

(** [__init__(self, data_dir, skip_frames, intrinsic)]: neither [data_dir]
    nor [skip_frames] is used. *)
Definition __init__ (data_dir : string) (skip_frames : Z) (intrinsic : Np.array2) : CameraPoses :=
  let extrinsic := [[F.one; F.zero; F.zero; F.zero];
                    [F.zero; F.one; F.zero; F.zero];
                    [F.zero; F.zero; F.one; F.zero]] in
  {| K := intrinsic; extrinsic := extrinsic; P := Np.matmul intrinsic extrinsic;
     world_points := []; printed := [] |}.

(** [T[:3, :3] = R] and [T[:3, 3] = t]. *)
Definition set_block33 (T : Np.array2) (R : Mat3) : Np.array2 :=
  Np.map2 (fun r Ti => r ++ skipn 3 Ti) (V3.rows R) (firstn 3 T) ++ skipn 3 T.

Definition set_column3 (T : Np.array2) (t : Vec3) : Np.array2 :=
  Np.map2 (fun ti Ti => firstn 3 Ti ++ ti :: skipn 4 Ti) (V3.to_array t) (firstn 3 T) ++ skipn 3 T.

Definition _form_transf (R : Mat3) (t : Vec3) : Np.array2 :=
  let T := Np.eye 4 in
  let T := set_block33 T R in
  let T := set_column3 T t in
  T.

(** The loop [for m, n in matches: if m.distance < 0.5 * n.distance:
    good_matches.append(m)].  Unpacking an entry that does not hold exactly
    two matches raises [ValueError]; the list built so far survives it. *)
Definition unpack2 (item : list DMatch) : result (DMatch * DMatch) :=
  match item with
  | [m; n] => Ok (m, n)
  | _ => Raise ValueError
  end.

Definition ratio_test (m n : DMatch) : bool :=
  PrimFloat.ltb (distance m) (PrimFloat.mul F.half (distance n)).

Fixpoint for_matches (matches : list (list DMatch)) (good_matches : list DMatch)
  : result unit * list DMatch :=
  match matches with
  | [] => (Ok tt, good_matches)
  | item :: rest =>
      match unpack2 item with
      | Raise e => (Raise e, good_matches)
      | Ok (m, n) =>
          for_matches rest (if ratio_test m n then good_matches ++ [m] else good_matches)
      end
  end.

(** [try: ... except ValueError: pass] *)
Definition except_ValueError (r : result unit) : result unit :=
  match r with
  | Raise ValueError => Ok tt
  | other => other
  end.

Definition pt_row (k : KeyPoint) : Np.array1 := [fst (pt k); snd (pt k)].

Section CameraPoses.

Context {cv : OpenCV}.

Definition _load_images (filepath : string) (skip_frames : Z) : result (list image) :=
  let image_paths := map (fun file => (filepath ++ "/" ++ file)%string) (sorted_listdir filepath) in
  if (skip_frames =? 0)%Z then Raise ValueError
  else
    let sliced :=
      if (0 <? skip_frames)%Z then slice_step image_paths (Z.to_nat skip_frames)
      else slice_step (rev image_paths) (Z.to_nat (- skip_frames)) in
    Ok (fold_left (fun images path =>
                     match imread path with
                     | Some img => images ++ [img]
                     | None => images
                     end) sliced []).

(** The pair [(q1, q2)], or [None] for the sentinel [(None, None)]. *)
Definition get_matches (self : CameraPoses) (img1 img2 : image)
  : result (option (Np.array2 * Np.array2)) :=
  let '(kp1, des1) := detectAndCompute img1 in
  let '(kp2, des2) := detectAndCompute img2 in
  if (6 <? length kp1) && (6 <? length kp2) then
    let matches := knnMatch des1 des2 2 in
    let '(raised, good_matches) := for_matches matches [] in
    _ <- except_ValueError raised ;;
    q1 <- comprehension (fun m => k <- getitem kp1 (queryIdx m) ;; Ok (pt_row k)) good_matches ;;
    q2 <- comprehension (fun m => k <- getitem kp2 (trainIdx m) ;; Ok (pt_row k)) good_matches ;;
    Ok (Some (q1, q2))
  else Ok None.

(** [hom[:3, :] / hom[3, :]] *)
Definition dehomogenize (hom : Np.array2) : Np.array2 :=
  Np.divide_rows (firstn 3 hom) (nth 3 hom []).

(** [np.mean(norm(Q1.T[:-1] - Q1.T[1:], axis=-1) / norm(Q2.T[:-1] - Q2.T[1:], axis=-1))] *)
Definition mean_norm_ratio (Q1 Q2 : Np.array2) : float :=
  Np.mean (Np.map2 PrimFloat.div
             (Np.norm_rows (Np.subtract (removelast (Np.transpose Q1)) (tl (Np.transpose Q1))))
             (Np.norm_rows (Np.subtract (removelast (Np.transpose Q2)) (tl (Np.transpose Q2))))).

(** The inner function of [decomp_essential_mat_old]; [self], [q1] and [q2]
    are the variables it closes over. *)
Definition sum_z_cal_relative_scale (self : CameraPoses) (q1 q2 : Np.array2)
           (R : Mat3) (t : Vec3) : Z * float :=
  let T := _form_transf R t in
  let P' := Np.matmul (Np.concatenate1 (K self) (Np.zeros 3 1)) T in
  let hom_Q1 := hom_array (triangulatePoints (P self) P' (Np.transpose q1) (Np.transpose q2)) in
  let hom_Q2 := Np.matmul T hom_Q1 in
  let Q1 := dehomogenize hom_Q1 in
  let Q2 := dehomogenize hom_Q2 in
  let sum_of_pos_z_Q1 := Np.count_positive (nth 2 Q1 []) in
  let sum_of_pos_z_Q2 := Np.count_positive (nth 2 Q2 []) in
  let relative_scale := mean_norm_ratio Q1 Q2 in
  ((sum_of_pos_z_Q1 + sum_of_pos_z_Q2)%Z, relative_scale).

(** The four candidates, in the order of the source. *)
Definition pairs_of (R1 R2 : Mat3) (t : Vec3) : list (Mat3 * Vec3) :=
  [(R1, t); (R1, V3.neg t); (R2, t); (R2, V3.neg t)].

Definition decomp_essential_mat_old (self : CameraPoses) (E q1 q2 : Np.array2)
  : (Mat3 * Vec3) * CameraPoses :=
  let '(R1, R2, t) := decomposeEssentialMat E in
  let t := V3.squeeze t in
  let pairs := pairs_of R1 R2 t in
  let scored := map (fun '(R, t) => sum_z_cal_relative_scale self q1 q2 R t) pairs in
  let z_sums := map fst scored in
  let relative_scales := map snd scored in
  let right_pair_idx := Np.argmax z_sums in
  let right_pair := nth right_pair_idx pairs (R1, t) in
  let relative_scale := nth right_pair_idx relative_scales F.zero in
  let '(R1, t) := right_pair in
  let t := V3.scale t relative_scale in
  let T := _form_transf R1 t in
  let P' := Np.matmul (Np.concatenate1 (K self) (Np.zeros 3 1)) T in
  let hom_Q1 := hom_array (triangulatePoints P' P' (Np.transpose q1) (Np.transpose q2)) in
  let hom_Q2 := Np.matmul T hom_Q1 in
  let Q1 := dehomogenize hom_Q1 in
  let Q2 := dehomogenize hom_Q2 in
  ((R1, t), world_points_append self Q1).

(** The second decomposition routine of the class; [get_pose] does not call it. *)
Definition score_projection (q1 q2 : Np.array2) (PT : Np.array2 * Np.array2) : float :=
  let '(P', T) := PT in
  let hom_Q1 := hom_array (triangulatePoints P' P' (Np.transpose q1) (Np.transpose q2)) in
  let hom_Q2 := Np.matmul T hom_Q1 in
  let Q1 := dehomogenize hom_Q1 in
  let Q2 := dehomogenize hom_Q2 in
  let total_sum := (Np.count_positive (nth 2 Q2 []) + Np.count_positive (nth 2 Q1 []))%Z in
  let relative_scale := mean_norm_ratio Q1 Q2 in
  PrimFloat.add (F.of_Z total_sum) relative_scale.

Definition decomp_essential_mat (self : CameraPoses) (E q1 q2 : Np.array2)
  : option (Mat3 * Vec3) :=
  let '(R1, R2, t) := decomposeEssentialMat E in
  let T1 := _form_transf R1 (V3.flatten t) in
  let T2 := _form_transf R2 (V3.flatten t) in
  let T3 := _form_transf R1 (V3.flatten (V3.neg t)) in
  let T4 := _form_transf R2 (V3.flatten (V3.neg t)) in
  let transformations := [T1; T2; T3; T4] in
  let K' := Np.concatenate1 (K self) (Np.zeros 3 1) in
  let projections := [Np.matmul K' T1; Np.matmul K' T2; Np.matmul K' T3; Np.matmul K' T4] in
  let positives := map (score_projection q1 q2) (combine projections transformations) in
  let max := Np.fargmax positives in
  if Nat.eqb max 2 then Some (R1, V3.flatten (V3.neg t))
  else if Nat.eqb max 3 then Some (R2, V3.flatten (V3.neg t))
  else if Nat.eqb max 0 then Some (R1, V3.flatten t)
  else if Nat.eqb max 1 then Some (R2, V3.flatten t)
  else None.

Definition nonfinite (A : Np.array2) : bool := Np.any_isnan A || Np.any_isinf A.

Definition get_pose (self : CameraPoses) (q1 q2 : Np.array2) : Np.array2 * CameraPoses :=
  let E := findEssentialMat q1 q2 (K self) in
  if nonfinite E then
    (Np.eye 4, print self "Error: Essential matrix contains NaN or Inf values")
  else
    let '((R, t), self) := decomp_essential_mat_old self E q1 q2 in
    if nonfinite (V3.rows R) then
      (Np.eye 4, print self "Error: Rotation matrix contains NaN or Inf values")
    else if nonfinite [V3.to_array t] then
      (Np.eye 4, print self "Error: Translation vector contains NaN or Inf values")
    else
      let transformation_matrix := _form_transf R (V3.squeeze t) in
      if nonfinite transformation_matrix then
        (Np.eye 4, print self "Error: Transformation matrix contains NaN or Inf values")
      else (transformation_matrix, self).

(** ** The module-level script: the video loop *)

Record Session : Type := {
  vo : CameraPoses;
  cur_pose : Np.array2;
  camera_pose_list : list Np.array2;
  estimated_path : list (float * float);
  old_frame : option image;
  process_frames : bool;
  frame_counter : Z
}.

Definition intrinsic : Np.array2 :=
  [[800%float; 0%float; 320%float];
   [0%float; 800%float; 240%float];
   [0%float; 0%float; 1%float]].

Definition skip_frames : Z := 2.
Definition data_dir : string := "".

Definition start_pose : Np.array2 := Np.concatenate1 (Np.eye 3) (Np.zeros 3 1).

Definition initial : Session :=
  {| vo := __init__ data_dir skip_frames intrinsic;
     cur_pose := start_pose;
     camera_pose_list := [];
     estimated_path := [];
     old_frame := None;
     process_frames := false;
     frame_counter := 0 |}.

(** [A[i, j]] on an array known to hold the entry. *)
Definition entry (A : Np.array2) (i j : nat) : float := nth j (nth i A []) F.zero.

(** The [if process_frames:] block: the pair (old_frame, new_frame). *)
Definition process_pair (s : Session) (old new_frame : image) : result Session :=
  m <- get_matches (vo s) old new_frame ;;
  let '(cur_pose, vo) :=
    match m with
    | Some (q1, q2) =>
        if (20 <? length q1) && (20 <? length q2) then
          let '(transf, vo) := get_pose (vo s) q1 q2 in
          (Np.matmul (cur_pose s) transf, vo)
        else (cur_pose s, vo s)
    | None => (cur_pose s, vo s)
    end in
  let hom_array := [[F.zero; F.zero; F.zero; F.one]] in
  let hom_camera_pose := Np.concatenate0 cur_pose hom_array in
  Ok {| vo := vo;
        cur_pose := cur_pose;
        camera_pose_list := camera_pose_list s ++ [hom_camera_pose];
        estimated_path := estimated_path s ++ [(entry cur_pose 0 3, entry cur_pose 2 3)];
        old_frame := old_frame s;
        process_frames := process_frames s;
        frame_counter := frame_counter s |}.

(** What one pass of the loop takes from outside: the frame [cap.read()]
    returned, that same array after the [cv2.putText] calls of the pass have
    drawn on it, and the key code [cv2.waitKey(25)] returned.  [old_frame]
    aliases the frame object, so the next pass matches against [drawn]. *)
Record Tick : Type := { frame : image; drawn : image; key : Z }.

(** One pass of [while cap.isOpened()] on a frame that was read. *)
Definition iteration (s : Session) (tick : Tick) : result Session :=
  let new_frame := frame tick in
  let s := {| vo := vo s; cur_pose := cur_pose s; camera_pose_list := camera_pose_list s;
              estimated_path := estimated_path s; old_frame := old_frame s;
              process_frames := process_frames s;
              frame_counter := (frame_counter s + 1)%Z |} in
  s <- (if process_frames s then
          match old_frame s with
          | Some old => process_pair s old new_frame
          | None => Ok s
          end
        else Ok s) ;;
  Ok {| vo := vo s; cur_pose := cur_pose s; camera_pose_list := camera_pose_list s;
        estimated_path := estimated_path s;
        old_frame := Some (drawn tick);
        process_frames := true;
        frame_counter := frame_counter s |}.

(** The loop over the capture; the end of the list is [ret == False], and
    key [q] leaves the loop. *)
Fixpoint video_loop (s : Session) (cap : list Tick) : result Session :=
  match cap with
  | [] => Ok s
  | tick :: rest =>
      s <- iteration s tick ;;
      if (Z.land (key tick) 255 =? 113)%Z then Ok s else video_loop s rest
  end.

Definition main (cap : list Tick) : result Session := video_loop initial cap.

End CameraPoses.

(* ================================================================== *)
(** * The notions of the specification *)

Module Spec.

(** The leading matches that carry exactly two neighbours. *)
Fixpoint two_neighbour_prefix (matches : list (list DMatch)) : list (list DMatch) :=
  match matches with
  | [m; n] :: rest => [m; n] :: two_neighbour_prefix rest
  | _ => []
  end.

(** The best neighbours of the entries that pass the ratio test, in order. *)
Fixpoint accepted (matches : list (list DMatch)) : list DMatch :=
  match matches with
  | [] => []
  | [m; n] :: rest => if ratio_test m n then m :: accepted rest else accepted rest
  | _ :: rest => accepted rest
  end.

(** A homogeneous point as a column, and a 4x4 transform applied to it. *)
Definition coords (p : Hom) : Np.array1 := [h_x p; h_y p; h_z p; h_w p].

Definition apply_transf (T : Np.array2) (p : Hom) : Hom :=
  {| h_x := Np.dot (nth 0 T []) (coords p);
     h_y := Np.dot (nth 1 T []) (coords p);
     h_z := Np.dot (nth 2 T []) (coords p);
     h_w := Np.dot (nth 3 T []) (coords p) |}.

(** Homogeneous normalization, and the depth (Z) it leaves. *)
Definition normalized (p : Hom) : Np.array1 :=
  [PrimFloat.div (h_x p) (h_w p); PrimFloat.div (h_y p) (h_w p); PrimFloat.div (h_z p) (h_w p)].

Definition depth (p : Hom) : float := PrimFloat.div (h_z p) (h_w p).

Definition positive_depth (p : Hom) : bool := PrimFloat.ltb F.zero (depth p).

Definition count_positive_depth (pts : list Hom) : Z :=
  Z.of_nat (length (filter positive_depth pts)).

(** Points in front of the first camera plus points in front of the second. *)
Definition cheirality (in_first in_second : list Hom) : Z :=
  (count_positive_depth in_first + count_positive_depth in_second)%Z.

(** Distance between two points, and between each point and its successor. *)
Definition point_distance (a b : Np.array1) : float :=
  Np.norm1 (Np.map2 PrimFloat.sub a b).

Fixpoint successive_distances (pts : list Np.array1) : list float :=
  match pts with
  | [] => []
  | a :: rest =>
      match rest with
      | [] => []
      | b :: _ => point_distance a b :: successive_distances rest
      end
  end.

(** Mean, over consecutive point pairs, of the distance in the first frame
    over the distance in the second. *)
Definition relative_scale (in_first in_second : list Hom) : float :=
  Np.mean (Np.map2 PrimFloat.div
             (successive_distances (map normalized in_first))
             (successive_distances (map normalized in_second))).

(** First maximum of a list of integers at index [i]. *)
Definition first_maximum (l : list Z) (i : nat) : Prop :=
  i < length l /\
  (forall j, j < length l -> (nth j l 0 <= nth i l 0)%Z) /\
  (forall j, j < i -> (nth j l 0 < nth i l 0)%Z).


(** Placeholders for positions no list holds. *)
Definition hom0 : Hom := {| h_x := F.zero; h_y := F.zero; h_z := F.zero; h_w := F.zero |}.
Definition vec0 : Vec3 := {| v_x := F.zero; v_y := F.zero; v_z := F.zero |}.
Definition no_candidate : Mat3 * Vec3 := ({| row0 := vec0; row1 := vec0; row2 := vec0 |}, vec0).

(** An array with [c] entries in every row. *)
Definition width (c : nat) (A : Np.array2) : Prop := Forall (fun r => length r = c) A.

(** The affine row of a homogeneous transform. *)
Definition affine_row : Np.array1 := [F.zero; F.zero; F.zero; F.one].

(** A 4x4 array whose last row is the affine row. *)
Definition homogeneous_pose (M : Np.array2) : Prop :=
  length M = 4 /\ width 4 M /\ nth 3 M [] = affine_row.

(** A homogeneous point without NaN or Inf. *)
Definition finite_point (p : Hom) : bool :=
  F.finite (h_x p) && F.finite (h_y p) && F.finite (h_z p) && F.finite (h_w p).

(** What a reader makes of the paths it can read, in order. *)
Definition read_all {I : Type} (read : string -> option I) (paths : list string) : list I :=
  flat_map (fun path => match read path with Some img => [img] | None => [] end) paths.

(** [os.path.join(a, b)] of posixpath: an absolute [b] replaces [a], an
    empty [a] or one that ends in the separator takes [b] as it is, and
    otherwise the separator goes between them. *)
Definition starts_with_slash (s : string) : bool := String.prefix "/" s.

Fixpoint ends_with_slash (s : string) : bool :=
  match s with
  | EmptyString => false
  | String _ rest => (s =? "/")%string || ends_with_slash rest
  end.

Definition path_join (a b : string) : string :=
  if starts_with_slash b then b
  else if (a =? "")%string || ends_with_slash a then (a ++ b)%string
  else (a ++ "/" ++ b)%string.

(** A directory path to which [os.path.join] adds the separator. *)
Definition joins_with_separator (a : string) : bool :=
  negb ((a =? "")%string || ends_with_slash a).

(** An index Python accepts for a sequence of length [n]. *)
Definition valid_index (n : nat) (i : Z) : bool :=
  ((- Z.of_nat n <=? i) && (i <? Z.of_nat n))%Z.

(** Both indices of a match point into the keypoint lists. *)
Definition valid_match (kp1 kp2 : list KeyPoint) (m : DMatch) : bool :=
  valid_index (length kp1) (queryIdx m) && valid_index (length kp2) (trainIdx m).

(** The x and z translation of a recorded pose. *)
Definition ground_position (M : Np.array2) : float * float :=
  (nth 3 (nth 0 M []) F.zero, nth 3 (nth 2 M []) F.zero).

Definition transformation_message : string := "Error: Transformation matrix contains NaN or Inf values".

End Spec.

Section Candidates.

Context {cv : OpenCV}.

(** What triangulation gives for the candidate [(R, t)], in the first
    camera's frame and carried into the second camera's frame. *)
Definition candidate_points (self : CameraPoses) (q1 q2 : Np.array2) (R : Mat3) (t : Vec3) : list Hom :=
  triangulatePoints (P self)
    (Np.matmul (Np.concatenate1 (K self) (Np.zeros 3 1)) (_form_transf R t))
    (Np.transpose q1) (Np.transpose q2).

Definition candidate_points2 (self : CameraPoses) (q1 q2 : Np.array2) (R : Mat3) (t : Vec3) : list Hom :=
  map (Spec.apply_transf (_form_transf R t)) (candidate_points self q1 q2 R t).

Definition candidate_cheirality (self : CameraPoses) (q1 q2 : Np.array2) (c : Mat3 * Vec3) : Z :=
  Spec.cheirality (candidate_points self q1 q2 (fst c) (snd c))
                  (candidate_points2 self q1 q2 (fst c) (snd c)).

Definition candidate_scale (self : CameraPoses) (q1 q2 : Np.array2) (c : Mat3 * Vec3) : float :=
  Spec.relative_scale (candidate_points self q1 q2 (fst c) (snd c))
                      (candidate_points2 self q1 q2 (fst c) (snd c)).

(** The four candidates of an essential matrix. *)
Definition candidates (E : Np.array2) : list (Mat3 * Vec3) :=
  let '(R1, R2, t) := decomposeEssentialMat E in pairs_of R1 R2 (V3.squeeze t).

(** The candidate [decomp_essential_mat_old] settles on: the argmax of the
    cheirality counts. *)
Definition winner (self : CameraPoses) (E q1 q2 : Np.array2) : Mat3 * Vec3 :=
  nth (Np.argmax (map (candidate_cheirality self q1 q2) (candidates E))) (candidates E)
      Spec.no_candidate.

(** The candidates in the order [decomp_essential_mat] scores them, with
    the sum it compares. *)
Definition candidates_alt (E : Np.array2) : list (Mat3 * Vec3) :=
  let '(R1, R2, t) := decomposeEssentialMat E in
  [(R1, t); (R2, t); (R1, V3.neg t); (R2, V3.neg t)].

Definition alt_sum (self : CameraPoses) (q1 q2 : Np.array2) (c : Mat3 * Vec3) : float :=
  let T := _form_transf (fst c) (snd c) in
  let P' := Np.matmul (Np.concatenate1 (K self) (Np.zeros 3 1)) T in
  let pts := triangulatePoints P' P' (Np.transpose q1) (Np.transpose q2) in
  let pts2 := map (Spec.apply_transf T) pts in
  PrimFloat.add (F.of_Z (Spec.cheirality pts2 pts)) (Spec.relative_scale pts pts2).

End Candidates.

(* ================================================================== *)
(** * Concrete OpenCV behaviours used to run the program *)

Module Scenario.

(** [n] keypoints for image number [img], at pixels (img, 0), (img, 1), ... *)
Definition keypoints (img n : nat) : list KeyPoint :=
  map (fun i => {| pt := (F.of_nat img, F.of_nat i) |}) (seq 0 n).

(** [n] matches, each with a best neighbour at distance 1 and a second at 4. *)
Definition clear_matches (n : nat) : list (list DMatch) :=
  map (fun i => [ {| queryIdx := Z.of_nat i; trainIdx := Z.of_nat i; distance := 1%float |};
                  {| queryIdx := Z.of_nat i; trainIdx := Z.of_nat (S i); distance := 4%float |} ])
      (seq 0 n).

Definition vec (x y z : float) : Vec3 := {| v_x := x; v_y := y; v_z := z |}.
Definition hom (x y z w : float) : Hom := {| h_x := x; h_y := y; h_z := z; h_w := w |}.

Definition I3 : Mat3 :=
  {| row0 := vec 1 0 0; row1 := vec 0 1 0; row2 := vec 0 0 1 |}.



(** Images are numbered; image [img] yields [nkp img] keypoints; matching,
    estimation, decomposition and triangulation answer as given. *)
Definition opencv (nkp : nat -> nat) (matches : list (list DMatch))
           (essential : Np.array2 -> Np.array2 -> Np.array2)
           (decomposition : Mat3 * Mat3 * Vec3) (points : list Hom) : OpenCV :=
  {| image := nat;
     descriptors := nat;
     detectAndCompute := fun img => (keypoints img (nkp img), img);
     knnMatch := fun _ _ _ => matches;
     findEssentialMat := fun q1 q2 _ => essential q1 q2;
     decomposeEssentialMat := fun _ => decomposition;
     triangulatePoints := fun _ _ _ _ => points;
     sorted_listdir := fun _ => map (fun _ => "frame.png"%string) (seq 0 100);
     imread := fun _ => Some 0 |}.

(** Three points in front of the camera, each differing from the next in y or z. *)
Definition three_points : list Hom := [hom 0 0 1 1; hom 0 1 1 1; hom 0 0 2 1].

(** No image has any keypoint. *)
Definition featureless : OpenCV :=
  opencv (fun _ => 0) [] (fun _ _ => Np.eye 3) (I3, I3, vec 1 0 0) three_points.

(** Every pair has 21 clear matches and a finite geometry. *)
Definition healthy : OpenCV :=
  opencv (fun _ => 22) (clear_matches 21) (fun _ _ => Np.eye 3) (I3, I3, vec 1 0 0) three_points.




(** As [healthy], but the first two triangulated points coincide. *)
Definition coincident : OpenCV :=
  opencv (fun _ => 22) (clear_matches 21) (fun _ _ => Np.eye 3) (I3, I3, vec 1 0 0)
         [hom 0 0 1 1; hom 0 0 1 1; hom 0 1 2 1; hom 0 1 2 1].



(** The first match has a single neighbour, the second passes the ratio test. *)
Definition lone : DMatch := {| queryIdx := 0; trainIdx := 0; distance := 1%float |}.
Definition best : DMatch := {| queryIdx := 1; trainIdx := 1; distance := 1%float |}.
Definition second : DMatch := {| queryIdx := 1; trainIdx := 2; distance := 4%float |}.

Definition short_entry : OpenCV :=
  opencv (fun _ => 7) [[lone]; [best; second]] (fun _ _ => Np.eye 3) (I3, I3, vec 1 0 0) three_points.

(** A frame shown without a key being pressed. *)
Definition tick {cv : OpenCV} (img : image) : Tick := {| frame := img; drawn := img; key := (-1)%Z |}.

Definition self0 : CameraPoses := __init__ data_dir skip_frames intrinsic.

(** The 21 pixel positions of image [img] that the clear matches pick. *)
Definition q_of (img : nat) : Np.array2 := map pt_row (keypoints img 21).

(** The session after the loop has consumed the given frames. *)
Definition run (cv : OpenCV) (cap : list (@Tick cv)) : @Session cv :=
  match @main cv cap with
  | Ok s => s
  | Raise _ => @initial cv
  end.



(** Seven keypoints per image, and matches that point at keypoints 0 to 20. *)
Definition out_of_range : OpenCV :=
  opencv (fun _ => 7) (clear_matches 21) (fun _ _ => Np.eye 3) (I3, I3, vec 1 0 0) three_points.

(** A frame shown while the key [q] is down. *)
Definition quit_tick {cv : OpenCV} (img : image) : Tick :=
  {| frame := img; drawn := img; key := 113%Z |}.

End Scenario.

(* ================================================================== *)
(** * Facts about binary64 arithmetic

    Derived from the specification of the primitive operations
    ([FloatAxioms]): multiplying by one, multiplying by and adding zero,
    and the order on values that are not NaN. *)

Module FloatFacts.

Import F.

Lemma IntDef_add a b : IntDef.Z.add a b = Z.add a b.
Proof. reflexivity. Qed.
Lemma IntDef_sub a b : IntDef.Z.sub a b = Z.sub a b.
Proof. reflexivity. Qed.
Lemma IntDef_leb a b : IntDef.Z.leb a b = Z.leb a b.
Proof. reflexivity. Qed.
Lemma IntDef_eqb a b : IntDef.Z.eqb a b = Z.eqb a b.
Proof. reflexivity. Qed.
Lemma IntDef_compare a b : IntDef.Z.compare a b = Z.compare a b.
Proof. reflexivity. Qed.
Lemma PosDef_mul a b : PosDef.Pos.mul a b = Pos.mul a b.
Proof. reflexivity. Qed.
Lemma PosDef_succ a : PosDef.Pos.succ a = Pos.succ a.
Proof. reflexivity. Qed.

Ltac to_binint :=
  rewrite ?IntDef_add, ?IntDef_sub, ?IntDef_leb, ?IntDef_eqb, ?IntDef_compare,
    ?PosDef_mul, ?PosDef_succ in *.

Lemma one_SF : Prim2SF F.one = S754_finite false 4503599627370496 (-52).
Proof. reflexivity. Qed.

(** The exact product m * 2^52 at exponent e - 52 rounds back to (m, e). *)
Lemma SFmul_one_finite s m e :
  bounded prec emax m e = true ->
  SF64mul (S754_finite s m e) (S754_finite false 4503599627370496 (-52)) = S754_finite s m e.
Proof.
  intros Hb. unfold bounded, canonical_mantissa in Hb.
  apply andb_prop in Hb. destruct Hb as [Hc He]. to_binint.
  apply Z.eqb_eq in Hc.
  unfold SF64mul, SFmul. rewrite xorb_false_r. to_binint.
  rewrite Pos.mul_comm. cbn [Pos.mul].
  unfold binary_round_aux, shr_fexp.
  cbn [Zdigits2 digits2_pos]. to_binint.
  rewrite !Pos2Z.inj_succ.
  set (d := Zpos (digits2_pos m)) in *.
  match goal with
  | |- context [fexp prec emax (?a + (e + -52))%Z] =>
      replace (a + (e + -52))%Z with (d + e)%Z by lia
  end.
  rewrite Hc.
  replace (e - (e + -52))%Z with 52%Z by lia.
  cbn [shr shr_record_of_loc SpecFloat.iter_pos shr_1 orb].
  cbn [shr_m loc_of_shr_record round_nearest_even Zdigits2]. to_binint.
  replace (e + -52 + 52)%Z with e by lia.
  fold d. rewrite Hc. rewrite Z.sub_diag.
  cbn [shr shr_record_of_loc shr_m].
  rewrite He. reflexivity.
Qed.

Lemma isnan_SF x : F.isnan x = match Prim2SF x with S754_nan => true | _ => false end.
Proof.
  unfold F.isnan, is_nan. rewrite FloatAxioms.eqb_spec. unfold SFeqb.
  destruct (Prim2SF x) as [s|s| |s m e]; try destruct s; simpl; try reflexivity;
    to_binint; rewrite Z.compare_refl, ?Pos.compare_cont_refl; reflexivity.
Qed.

Lemma isinf_SF x : F.isinf x = match Prim2SF x with S754_infinity _ => true | _ => false end.
Proof.
  unfold F.isinf, is_infinity. rewrite FloatAxioms.eqb_spec, abs_spec. unfold SFeqb.
  change (Prim2SF infinity) with (S754_infinity false).
  destruct (Prim2SF x) as [s|s| |s m e]; try destruct s; reflexivity.
Qed.

Lemma finite_SF x :
  F.finite x = true ->
  zero_like x \/ exists s m e, Prim2SF x = S754_finite s m e /\ bounded prec emax m e = true.
Proof.
  unfold F.finite. rewrite isnan_SF, isinf_SF. intros H.
  pose proof (Prim2SF_valid x) as Hv.
  destruct (Prim2SF x) as [s|s| |s m e] eqn:Hx; try discriminate.
  - left. exists s. exact Hx.
  - right. exists s, m, e. split; [reflexivity | exact Hv].
Qed.

Lemma mul_one x : PrimFloat.mul x F.one = x.
Proof.
  apply Prim2SF_inj. rewrite mul_spec, one_SF.
  pose proof (Prim2SF_valid x) as Hv.
  destruct (Prim2SF x) as [s|s| |s m e] eqn:Hx.
  - simpl. now rewrite xorb_false_r.
  - simpl. now rewrite xorb_false_r.
  - reflexivity.
  - apply SFmul_one_finite. exact Hv.
Qed.

Lemma mul_zero x : F.finite x = true -> zero_like (PrimFloat.mul x F.zero).
Proof.
  intros H. unfold zero_like. rewrite mul_spec.
  change (Prim2SF F.zero) with (S754_zero false).
  destruct (finite_SF _ H) as [[s Hs] | (s & m & e & Hs & _)]; rewrite Hs; simpl; eauto.
Qed.

Lemma add_zero_like u v : zero_like u -> zero_like v -> zero_like (PrimFloat.add u v).
Proof.
  intros [s Hs] [s' Hs']. unfold zero_like. rewrite add_spec, Hs, Hs'.
  destruct s, s'; simpl; eauto.
Qed.

Lemma add_zero_r x z : F.finite x = true -> zero_like z -> same_value (PrimFloat.add x z) x.
Proof.
  intros H [s' Hz].
  destruct (finite_SF _ H) as [[s Hs] | (s & m & e & Hs & _)].
  - right. split; [apply add_zero_like|]; unfold zero_like; eauto.
  - left. apply Prim2SF_inj. rewrite add_spec, Hs, Hz. reflexivity.
Qed.

Lemma add_zero_l x z : F.finite x = true -> zero_like z -> same_value (PrimFloat.add z x) x.
Proof.
  intros H [s' Hz].
  destruct (finite_SF _ H) as [[s Hs] | (s & m & e & Hs & _)].
  - right. split; [apply add_zero_like|]; unfold zero_like; eauto.
  - left. apply Prim2SF_inj. rewrite add_spec, Hs, Hz. reflexivity.
Qed.

Lemma same_value_add_zero u x z :
  F.finite x = true -> same_value u x -> zero_like z -> same_value (PrimFloat.add u z) x.
Proof.
  intros H [-> | [Hu Hx]] Hz.
  - now apply add_zero_r.
  - right. split; [now apply add_zero_like | exact Hx].
Qed.

Lemma same_value_eqb u x : F.finite x = true -> same_value u x -> PrimFloat.eqb u x = true.
Proof.
  intros H [-> | [[s Hu] [s' Hx]]].
  - unfold F.finite in H. apply andb_prop in H. destruct H as [H _].
    unfold F.isnan, is_nan in H. now rewrite negb_involutive in H.
  - rewrite FloatAxioms.eqb_spec, Hu, Hx. reflexivity.
Qed.

(** ** Order *)











End FloatFacts.

(* ================================================================== *)
(** * Facts about arrays *)

Module ArrayFacts.

Import FloatFacts.

Lemma all_finite1_iff v :
  Np.all_finite1 v = true <-> Np.any_isnan1 v = false /\ Np.any_isinf1 v = false.
Proof.
  unfold Np.all_finite1, Np.any_isnan1, Np.any_isinf1.
  induction v as [|x v IH]; simpl.
  - tauto.
  - rewrite andb_true_iff, !orb_false_iff, IH. unfold F.finite.
    rewrite andb_true_iff, !negb_true_iff. tauto.
Qed.

Lemma all_finite_iff A :
  Np.all_finite A = true <-> Np.any_isnan A = false /\ Np.any_isinf A = false.
Proof.
  unfold Np.all_finite, Np.any_isnan, Np.any_isinf.
  induction A as [|r A IH]; simpl.
  - tauto.
  - rewrite andb_true_iff, !orb_false_iff, IH, all_finite1_iff. tauto.
Qed.

Lemma nonfinite_false A : nonfinite A = false <-> Np.all_finite A = true.
Proof. unfold nonfinite. rewrite orb_false_iff, all_finite_iff. tauto. Qed.

Lemma eye4_finite : Np.all_finite (Np.eye 4) = true.
Proof. reflexivity. Qed.

Lemma eye4_width : Spec.width 4 (Np.eye 4) /\ length (Np.eye 4) = 4.
Proof. split; [repeat constructor | reflexivity]. Qed.

Lemma form_transf_entries R t :
  _form_transf R t =
  [[v_x (row0 R); v_y (row0 R); v_z (row0 R); v_x t];
   [v_x (row1 R); v_y (row1 R); v_z (row1 R); v_y t];
   [v_x (row2 R); v_y (row2 R); v_z (row2 R); v_z t];
   [F.zero; F.zero; F.zero; F.one]].
Proof. reflexivity. Qed.

Lemma form_transf_width R t : Spec.width 4 (_form_transf R t) /\ length (_form_transf R t) = 4.
Proof. rewrite form_transf_entries. split; [repeat constructor | reflexivity]. Qed.

(** A finite row times the 4x4 identity is that row, up to the sign of zeros. *)
Lemma row_times_eye4 a b c d :
  F.finite a = true -> F.finite b = true -> F.finite c = true -> F.finite d = true ->
  Np.array_equal1 (map (fun j => Np.dot [a; b; c; d] (Np.column j (Np.eye 4))) (seq 0 4))
                  [a; b; c; d] = true.
Proof.
  intros Ha Hb Hc Hd.
  pose proof (mul_zero _ Ha) as Za. pose proof (mul_zero _ Hb) as Zb.
  pose proof (mul_zero _ Hc) as Zc. pose proof (mul_zero _ Hd) as Zd.
  cbn [seq map Np.array_equal1].
  change (Np.column 0 (Np.eye 4)) with [F.one; F.zero; F.zero; F.zero].
  change (Np.column 1 (Np.eye 4)) with [F.zero; F.one; F.zero; F.zero].
  change (Np.column 2 (Np.eye 4)) with [F.zero; F.zero; F.one; F.zero].
  change (Np.column 3 (Np.eye 4)) with [F.zero; F.zero; F.zero; F.one].
  unfold Np.dot. cbn [Np.map2 Np.add_reduce fold_left].
  rewrite !mul_one.
  repeat (apply andb_true_intro; split); try reflexivity.
  - apply same_value_eqb; [assumption|].
    repeat (apply same_value_add_zero; [assumption | | assumption]).
    now left.
  - apply same_value_eqb; [assumption|].
    repeat (apply same_value_add_zero; [assumption | | assumption]).
    now apply add_zero_l.
  - apply same_value_eqb; [assumption|].
    apply same_value_add_zero; [assumption | | assumption].
    apply add_zero_l; [assumption|]. now apply add_zero_like.
  - apply same_value_eqb; [assumption|].
    apply add_zero_l; [assumption|]. repeat (apply add_zero_like; [|assumption]). assumption.
Qed.

(** Composing a finite pose with the identity leaves its value unchanged. *)
Lemma matmul_eye4 A :
  Spec.width 4 A -> Np.all_finite A = true -> Np.array_equal (Np.matmul A (Np.eye 4)) A = true.
Proof.
  unfold Np.matmul. change (Np.ncols (Np.eye 4)) with 4.
  induction 1 as [|r A Hr HA IH]; intros Hf; [reflexivity|].
  simpl in Hf. apply andb_prop in Hf. destruct Hf as [Hfr HfA].
  cbn [map Np.array_equal]. rewrite (IH HfA), andb_true_r.
  destruct r as [|a [|b [|c [|d [|? ?]]]]]; try discriminate Hr.
  simpl in Hfr. rewrite !andb_true_iff in Hfr.
  destruct Hfr as (Ha & Hb & Hc & Hd & _).
  now apply row_times_eye4.
Qed.

End ArrayFacts.

(* ================================================================== *)
(** * Facts about lists, columns and rows *)

Module ListFacts.

Lemma map_seq_nth {A B} (f : A -> B) (l : list A) (d : A) :
  map (fun j => f (nth j l d)) (seq 0 (length l)) = map f l.
Proof.
  induction l as [|a l IH]; [reflexivity|].
  cbn [length seq map nth]. f_equal.
  rewrite <- seq_shift, map_map. exact IH.
Qed.

Lemma map2_map {A B C D} (f : B -> C -> D) (g : A -> B) (h : A -> C) (l : list A) :
  Np.map2 f (map g l) (map h l) = map (fun x => f (g x) (h x)) l.
Proof. induction l as [|a l IH]; [reflexivity|]. cbn. now rewrite IH. Qed.

Lemma nth_map_in_range {A B} (f : A -> B) (l : list A) (j : nat) (d : A) (d' : B) :
  j < length l -> nth j (map f l) d' = f (nth j l d).
Proof.
  intros Hj. rewrite (nth_indep _ d' (f d)) by now rewrite length_map.
  apply map_nth.
Qed.

Lemma column_hom_array j pts : Np.column j (hom_array pts) = Spec.coords (nth j pts Spec.hom0).
Proof.
  unfold Np.column, hom_array, Spec.coords. cbn [map].
  change F.zero with (h_x Spec.hom0) at 1. rewrite map_nth.
  change F.zero with (h_y Spec.hom0) at 1. rewrite map_nth.
  change F.zero with (h_z Spec.hom0) at 1. rewrite map_nth.
  change F.zero with (h_w Spec.hom0) at 1. rewrite map_nth.
  reflexivity.
Qed.

Lemma row_times_hom_array r pts :
  map (fun j => Np.dot r (Np.column j (hom_array pts))) (seq 0 (length pts))
  = map (fun p => Np.dot r (Spec.coords p)) pts.
Proof.
  rewrite <- (map_seq_nth (fun p => Np.dot r (Spec.coords p)) pts Spec.hom0).
  apply map_ext. intros j. now rewrite column_hom_array.
Qed.

(** A 4x4 transform times the 4xN array of points transforms every point. *)
Lemma matmul_hom_array T pts :
  length T = 4 -> Np.matmul T (hom_array pts) = hom_array (map (Spec.apply_transf T) pts).
Proof.
  intros HT. destruct T as [|r0 [|r1 [|r2 [|r3 [|? ?]]]]]; try discriminate HT.
  unfold Np.matmul. change (Np.ncols (hom_array pts)) with (length (map h_x pts)).
  rewrite length_map. cbn [map]. rewrite !row_times_hom_array.
  unfold hom_array. rewrite !map_map. reflexivity.
Qed.

Lemma dehomogenize_hom_array pts :
  dehomogenize (hom_array pts) =
  [map (fun p => PrimFloat.div (h_x p) (h_w p)) pts;
   map (fun p => PrimFloat.div (h_y p) (h_w p)) pts;
   map (fun p => PrimFloat.div (h_z p) (h_w p)) pts].
Proof.
  unfold dehomogenize, hom_array, Np.divide_rows. cbn [firstn nth map].
  now rewrite !map2_map.
Qed.

Lemma count_positive_from (f : Hom -> float) pts acc :
  fold_left (fun acc x => if PrimFloat.ltb F.zero x then (acc + 1)%Z else acc) (map f pts) acc
  = (acc + Z.of_nat (length (filter (fun p => PrimFloat.ltb F.zero (f p)) pts)))%Z.
Proof.
  revert acc. induction pts as [|p pts IH]; intros acc; cbn [map fold_left filter].
  - cbn. lia.
  - rewrite IH. destruct (PrimFloat.ltb F.zero (f p)); cbn [length]; lia.
Qed.

Lemma count_positive_depths pts :
  Np.count_positive (nth 2 (dehomogenize (hom_array pts)) []) = Spec.count_positive_depth pts.
Proof.
  rewrite dehomogenize_hom_array. cbn [nth].
  unfold Np.count_positive. rewrite count_positive_from. reflexivity.
Qed.

Lemma transpose_rows3 (fx fy fz : Hom -> float) pts :
  Np.transpose [map fx pts; map fy pts; map fz pts] = map (fun p => [fx p; fy p; fz p]) pts.
Proof.
  unfold Np.transpose. cbn [Np.ncols]. rewrite length_map.
  rewrite <- (map_seq_nth (fun p => [fx p; fy p; fz p]) pts Spec.hom0).
  apply map_ext_in. intros j Hj. apply in_seq in Hj.
  unfold Np.column. cbn [map].
  rewrite !(nth_map_in_range _ _ Spec.hom0) by lia. reflexivity.
Qed.

Lemma transpose_dehomogenize pts :
  Np.transpose (dehomogenize (hom_array pts)) = map Spec.normalized pts.
Proof. rewrite dehomogenize_hom_array. apply transpose_rows3. Qed.

(** [norm(L[:-1] - L[1:], axis=-1)] lists the distance of every point to the next. *)
Lemma norm_rows_successive (L : list Np.array1) :
  Np.norm_rows (Np.subtract (removelast L) (tl L)) = Spec.successive_distances L.
Proof.
  induction L as [|a L IH]; [reflexivity|].
  destruct L as [|b L]; [reflexivity|].
  change (removelast (a :: b :: L)) with (a :: removelast (b :: L)).
  cbn [tl]. unfold Np.subtract, Np.norm_rows in *. cbn [Np.map2 map].
  cbn [tl] in IH. rewrite IH. reflexivity.
Qed.

Lemma mean_norm_ratio_points pts1 pts2 :
  mean_norm_ratio (dehomogenize (hom_array pts1)) (dehomogenize (hom_array pts2))
  = Spec.relative_scale pts1 pts2.
Proof.
  unfold mean_norm_ratio, Spec.relative_scale.
  now rewrite !transpose_dehomogenize, !norm_rows_successive.
Qed.

(** ** First maximum *)

Lemma argmax_from_first_maximum xs : forall pre best bi,
  bi < length pre -> nth bi pre 0%Z = best ->
  (forall j, j < length pre -> (nth j pre 0 <= best)%Z) ->
  (forall j, j < bi -> (nth j pre 0 < best)%Z) ->
  Spec.first_maximum (pre ++ xs) (Np.argmax_from best bi (length pre) xs).
Proof.
  induction xs as [|x xs IH]; intros pre best bi Hbi Hbest Hle Hlt.
  - cbn [Np.argmax_from]. rewrite app_nil_r. unfold Spec.first_maximum.
    rewrite Hbest. auto.
  - cbn [Np.argmax_from].
    replace (pre ++ x :: xs) with ((pre ++ [x]) ++ xs) by now rewrite <- app_assoc.
    replace (S (length pre)) with (length (pre ++ [x])) by (rewrite length_app; cbn; lia).
    destruct (Z.ltb_spec best x) as [Hx | Hx].
    + apply IH.
      * rewrite length_app. cbn. lia.
      * rewrite app_nth2, Nat.sub_diag by lia. reflexivity.
      * intros j Hj. rewrite length_app in Hj. cbn in Hj.
        destruct (Nat.eq_dec j (length pre)) as [-> | Hne].
        -- rewrite app_nth2, Nat.sub_diag by lia. cbn. lia.
        -- rewrite app_nth1 by lia. specialize (Hle j). lia.
      * intros j Hj. rewrite app_nth1 by lia. specialize (Hle j). lia.
    + apply IH.
      * rewrite length_app. cbn. lia.
      * rewrite app_nth1 by lia. exact Hbest.
      * intros j Hj. rewrite length_app in Hj. cbn in Hj.
        destruct (Nat.eq_dec j (length pre)) as [-> | Hne].
        -- rewrite app_nth2, Nat.sub_diag by lia. cbn. lia.
        -- rewrite app_nth1 by lia. apply Hle. lia.
      * intros j Hj. rewrite app_nth1 by lia. now apply Hlt.
Qed.

Lemma argmax_first_maximum l : l <> [] -> Spec.first_maximum l (Np.argmax l).
Proof.
  destruct l as [|x xs]; [congruence | intros _].
  apply (argmax_from_first_maximum xs [x] (best := x) (bi := 0)); cbn.
  - lia.
  - reflexivity.
  - intros [|j] Hj; [lia | lia].
  - intros j Hj. lia.
Qed.



End ListFacts.

(* ================================================================== *)
(** * Facts about the methods of CameraPoses *)

Section MethodFacts.

Context {cv : OpenCV}.

Import ListFacts ArrayFacts.

Lemma for_matches_prefix matches : forall good,
  snd (for_matches matches good) = good ++ Spec.accepted (Spec.two_neighbour_prefix matches) /\
  except_ValueError (fst (for_matches matches good)) = Ok tt.
Proof.
  induction matches as [|item rest IH]; intros good.
  - cbn. now rewrite app_nil_r.
  - destruct item as [|m [|n [|x item]]]; cbn [for_matches unpack2 Spec.two_neighbour_prefix];
      try (cbn; now rewrite app_nil_r).
    cbn [Spec.accepted]. destruct (ratio_test m n).
    + destruct (IH (good ++ [m])) as [H1 H2]. rewrite H1, <- app_assoc. now split.
    + apply IH.
Qed.

Lemma in_accepted_prefix pre m :
  In m (Spec.accepted pre) -> exists n, In [m; n] pre /\ ratio_test m n = true.
Proof.
  induction pre as [|item pre IH]; [intros []|].
  destruct item as [|a [|b [|x item]]]; cbn [Spec.accepted]; intros H;
    try (destruct (IH H) as (n & Hn & Hr); exists n; split; [now right | exact Hr]).
  destruct (ratio_test a b) eqn:Hab.
  - destruct H as [-> | H].
    + exists b. split; [now left | exact Hab].
    + destruct (IH H) as (n & Hn & Hr). exists n. split; [now right | exact Hr].
  - destruct (IH H) as (n & Hn & Hr). exists n. split; [now right | exact Hr].
Qed.

Lemma accepted_prefix_in pre m n :
  In [m; n] pre -> ratio_test m n = true -> In m (Spec.accepted pre).
Proof.
  induction pre as [|item pre IH]; [intros []|].
  intros [-> | H] Hr.
  - cbn [Spec.accepted]. rewrite Hr. now left.
  - specialize (IH H Hr).
    destruct item as [|a [|b [|x item]]]; cbn [Spec.accepted]; trivial.
    destruct (ratio_test a b); [now right | trivial].
Qed.

(** What [sum_z_cal_relative_scale] returns, in terms of the points. *)
Lemma score_of_candidate self q1 q2 R t :
  sum_z_cal_relative_scale self q1 q2 R t
  = (candidate_cheirality self q1 q2 (R, t), candidate_scale self q1 q2 (R, t)).
Proof.
  unfold sum_z_cal_relative_scale, candidate_cheirality, candidate_scale,
    candidate_points2, candidate_points, Spec.cheirality.
  cbn [fst snd].
  rewrite matmul_hom_array by apply form_transf_width.
  now rewrite !count_positive_depths, mean_norm_ratio_points.
Qed.

Lemma score_of_projection self q1 q2 c :
  score_projection q1 q2
    (Np.matmul (Np.concatenate1 (K self) (Np.zeros 3 1)) (_form_transf (fst c) (snd c)),
     _form_transf (fst c) (snd c))
  = alt_sum self q1 q2 c.
Proof.
  unfold score_projection, alt_sum, Spec.cheirality.
  rewrite matmul_hom_array by apply form_transf_width.
  now rewrite !count_positive_depths, mean_norm_ratio_points.
Qed.

Lemma candidates_length E : length (candidates E) = 4.
Proof. unfold candidates. now destruct (decomposeEssentialMat E) as [[R1 R2] t]. Qed.

Lemma candidates_alt_length E : length (candidates_alt E) = 4.
Proof. unfold candidates_alt. now destruct (decomposeEssentialMat E) as [[R1 R2] t]. Qed.

Lemma winner_index_in_range self E q1 q2 :
  Np.argmax (map (candidate_cheirality self q1 q2) (candidates E)) < 4.
Proof.
  pose proof (candidates_length E) as Hl.
  destruct (@argmax_first_maximum (map (candidate_cheirality self q1 q2) (candidates E))) as [Hi _].
  - destruct (candidates E); [discriminate | discriminate].
  - now rewrite length_map, Hl in Hi.
Qed.

(** [decomp_essential_mat_old]: the winner's rotation, its direction times its
    own relative scale, and one more entry in [world_points]. *)
Lemma decomp_old_result self E q1 q2 :
  fst (decomp_essential_mat_old self E q1 q2)
  = (fst (winner self E q1 q2),
     V3.scale (snd (winner self E q1 q2)) (candidate_scale self q1 q2 (winner self E q1 q2)))
  /\ exists Q, snd (decomp_essential_mat_old self E q1 q2) = world_points_append self Q.
Proof.
  pose proof (winner_index_in_range self E q1 q2) as Hi.
  unfold winner, decomp_essential_mat_old, candidates in *.
  destruct (decomposeEssentialMat E) as [[R1 R2] t].
  unfold V3.squeeze in *.
  rewrite (map_ext (fun '(R, t0) => sum_z_cal_relative_scale self q1 q2 R t0)
             (fun c => (candidate_cheirality self q1 q2 c, candidate_scale self q1 q2 c)))
    by (intros [R t0]; apply score_of_candidate).
  rewrite !map_map.
  match goal with
  | |- context [nth (Np.argmax ?l) _ F.zero] =>
      assert (Hi' : Np.argmax l < 4) by exact Hi;
      change (Np.argmax (map (candidate_cheirality self q1 q2) (pairs_of R1 R2 t)))
        with (Np.argmax l);
      generalize dependent (Np.argmax l)
  end.
  intros i Hi1. unfold pairs_of.
  destruct i as [|[|[|[|i]]]]; try lia; cbn [nth map fst snd];
    (split; [reflexivity | eexists; reflexivity]).
Qed.

(** Every return of [get_pose]. *)
Lemma get_pose_cases self q1 q2 :
  fst (get_pose self q1 q2) = Np.eye 4 \/
  exists R t, fst (get_pose self q1 q2) = _form_transf R t /\ nonfinite (_form_transf R t) = false.
Proof.
  unfold get_pose.
  destruct (nonfinite (findEssentialMat q1 q2 (K self))); [now left|].
  destruct (decomp_essential_mat_old self _ q1 q2) as [[R t] self'].
  destruct (nonfinite (V3.rows R)); [now left|].
  destruct (nonfinite [V3.to_array t]); [now left|].
  unfold V3.squeeze.
  destruct (nonfinite (_form_transf R t)) eqn:HT; [now left|].
  right. exists R, t. now split.
Qed.

Lemma get_pose_finite self q1 q2 :
  Np.all_finite (fst (get_pose self q1 q2)) = true /\
  Spec.width 4 (fst (get_pose self q1 q2)) /\ length (fst (get_pose self q1 q2)) = 4.
Proof.
  destruct (get_pose_cases self q1 q2) as [-> | (R & t & -> & HT)].
  - split; [apply eye4_finite | apply eye4_width].
  - split; [now apply nonfinite_false | apply form_transf_width].
Qed.


End MethodFacts.

(* ================================================================== *)
(** * Facts about the video loop *)

Section LoopFacts.

Context {cv : OpenCV}.

Import ListFacts ArrayFacts.

(** A pair is either skipped or composed with what [get_pose] returned. *)
Lemma process_pair_outcome (s : Session) old new_frame :
  forall s', process_pair s old new_frame = Ok s' ->
  length (camera_pose_list s') = S (length (camera_pose_list s)) /\
  frame_counter s' = frame_counter s /\
  ((cur_pose s' = cur_pose s /\ vo s' = vo s) \/
   exists q1 q2,
     get_matches (vo s) old new_frame = Ok (Some (q1, q2)) /\
     cur_pose s' = Np.matmul (cur_pose s) (fst (get_pose (vo s) q1 q2)) /\
     vo s' = snd (get_pose (vo s) q1 q2)).
Proof.
  intros s'. unfold process_pair.
  destruct (get_matches (vo s) old new_frame) as [[[q1 q2]|]|e]; cbn [bind]; try discriminate.
  - destruct ((20 <? length q1) && (20 <? length q2)).
    + destruct (get_pose (vo s) q1 q2) as [transf vo'] eqn:Hp.
      intros [= <-]. cbn. rewrite length_app. cbn.
      repeat split; try lia. right. exists q1, q2. repeat split; now rewrite ?Hp.
    + intros [= <-]. cbn. rewrite length_app. cbn. repeat split; try lia. now left.
  - intros [= <-]. cbn. rewrite length_app. cbn. repeat split; try lia. now left.
Qed.

Lemma iteration_first (s : Session) tick :
  process_frames s = false ->
  exists s', iteration s tick = Ok s' /\
    frame_counter s' = (frame_counter s + 1)%Z /\
    camera_pose_list s' = camera_pose_list s /\
    cur_pose s' = cur_pose s /\ vo s' = vo s /\
    process_frames s' = true /\ old_frame s' = Some (drawn tick).
Proof.
  intros Hp. unfold iteration. cbn [process_frames]. rewrite Hp. cbn [bind].
  eexists. split; [reflexivity|]. cbn. tauto.
Qed.

Lemma iteration_next (s : Session) tick old :
  process_frames s = true -> old_frame s = Some old ->
  forall s', iteration s tick = Ok s' ->
  exists p, process_pair
              {| vo := vo s; cur_pose := cur_pose s; camera_pose_list := camera_pose_list s;
                 estimated_path := estimated_path s; old_frame := old_frame s;
                 process_frames := process_frames s;
                 frame_counter := (frame_counter s + 1)%Z |} old (frame tick) = Ok p /\
    vo s' = vo p /\ cur_pose s' = cur_pose p /\
    camera_pose_list s' = camera_pose_list p /\ frame_counter s' = frame_counter p /\
    process_frames s' = true /\ old_frame s' = Some (drawn tick).
Proof.
  intros Hp Ho s'. unfold iteration. cbn [process_frames old_frame]. rewrite Hp, Ho.
  match goal with |- context [process_pair ?a ?b ?c] => destruct (process_pair a b c) as [p|e] eqn:Hpp end;
    cbn [bind]; [|discriminate].
  intros [= <-]. exists p. cbn. tauto.
Qed.

(** Once the first frame is in, every frame read is one more pairwise step. *)
Lemma video_loop_steady (cap : list Tick) : forall (s : Session) old s',
  process_frames s = true -> old_frame s = Some old ->
  forallb (fun t => negb (Z.land (key t) 255 =? 113)%Z) cap = true ->
  video_loop s cap = Ok s' ->
  frame_counter s' = (frame_counter s + Z.of_nat (length cap))%Z /\
  length (camera_pose_list s') = length (camera_pose_list s) + length cap.
Proof.
  induction cap as [|tick cap IH]; intros s old s' Hp Ho Hq.
  - cbn. intros [= <-]. split; lia.
  - cbn [forallb] in Hq. apply andb_prop in Hq. destruct Hq as [Hk Hq].
    apply negb_true_iff in Hk. cbn [video_loop].
    destruct (iteration s tick) as [s1|e] eqn:Hit; cbn [bind]; [|discriminate].
    rewrite Hk. intros Hrun.
    destruct (iteration_next s tick Hp Ho Hit) as (p & Hpp & _ & _ & Hl & Hf & Hp1 & Ho1).
    destruct (process_pair_outcome _ _ _ Hpp) as (Hlp & Hfp & _).
    cbn in Hlp, Hfp.
    destruct (IH s1 (drawn tick) s' Hp1 Ho1 Hq Hrun) as [H1 H2].
    rewrite H1, H2, Hl, Hf, Hlp, Hfp. cbn [length]. split; lia.
Qed.

Lemma main_counts (cap : list Tick) s' :
  forallb (fun t => negb (Z.land (key t) 255 =? 113)%Z) cap = true ->
  main cap = Ok s' ->
  frame_counter s' = Z.of_nat (length cap) /\
  length (camera_pose_list s') = pred (length cap).
Proof.
  unfold main. destruct cap as [|tick cap]; intros Hq.
  - cbn. intros [= <-]. now split.
  - cbn [forallb] in Hq. apply andb_prop in Hq. destruct Hq as [Hk Hq].
    apply negb_true_iff in Hk. cbn [video_loop].
    destruct (@iteration_first initial tick eq_refl) as (s1 & Hit & Hf & Hl & _ & _ & Hp1 & Ho1).
    rewrite Hit. cbn [bind]. rewrite Hk. intros Hrun.
    destruct (video_loop_steady cap s1 Hp1 Ho1 Hq Hrun) as [H1 H2].
    rewrite H1, H2, Hf, Hl. cbn [length initial frame_counter camera_pose_list pred]. split; lia.
Qed.

Lemma matmul_shape A B :
  length (Np.matmul A B) = length A /\ Spec.width (Np.ncols B) (Np.matmul A B).
Proof.
  unfold Np.matmul, Spec.width. split; [apply length_map|].
  apply Forall_forall. intros r Hr. apply in_map_iff in Hr.
  destruct Hr as (r0 & <- & _). now rewrite length_map, length_seq.
Qed.

Lemma matmul_keeps_shape A T :
  length A = 3 -> Spec.width 4 T -> length T = 4 ->
  length (Np.matmul A T) = 3 /\ Spec.width 4 (Np.matmul A T).
Proof.
  intros HA Hw Hl. destruct (matmul_shape A T) as [H1 H2].
  replace (Np.ncols T) with 4 in H2.
  - split; [now rewrite H1 | exact H2].
  - destruct T as [|r T]; [discriminate|]. inversion Hw; subst. cbn. congruence.
Qed.

Lemma iteration_keeps_shape (s : Session) (tick : Tick) (s' : Session) :
  iteration s tick = Ok s' ->
  length (cur_pose s) = 3 /\ Spec.width 4 (cur_pose s) ->
  length (cur_pose s') = 3 /\ Spec.width 4 (cur_pose s').
Proof.
  intros Hit Hs. destruct (process_frames s) eqn:Hp.
  - destruct (old_frame s) as [old|] eqn:Ho.
    + destruct (iteration_next s tick Hp Ho Hit) as (p & Hpp & _ & -> & _).
      destruct (process_pair_outcome _ _ _ Hpp) as (_ & _ & [[-> _] | (q1 & q2 & _ & -> & _)]);
        cbn [cur_pose vo]; [exact Hs|].
      destruct (get_pose_finite (vo s) q1 q2) as (_ & Hw & Hl).
      now apply matmul_keeps_shape.
    + unfold iteration in Hit. cbn [process_frames old_frame] in Hit.
      rewrite Hp, Ho in Hit. cbn in Hit. now injection Hit as <-.
  - destruct (iteration_first s tick Hp) as (s1 & Hit1 & _ & _ & Hc & _).
    rewrite Hit in Hit1. injection Hit1 as ->. now rewrite Hc.
Qed.

Lemma video_loop_keeps_shape (cap : list Tick) : forall (s s' : Session),
  video_loop s cap = Ok s' ->
  length (cur_pose s) = 3 /\ Spec.width 4 (cur_pose s) ->
  length (cur_pose s') = 3 /\ Spec.width 4 (cur_pose s').
Proof.
  induction cap as [|tick cap IH]; intros s s'; cbn [video_loop].
  - now intros [= <-].
  - destruct (iteration s tick) as [s1|e] eqn:Hit; cbn [bind]; [|discriminate].
    intros Hrun Hs. pose proof (iteration_keeps_shape s tick Hit Hs) as Hs1.
    destruct (Z.land (key tick) 255 =? 113)%Z.
    + now injection Hrun as <-.
    + now apply (IH s1).
Qed.

Lemma comprehension_shape {A} (f : A -> result Np.array1) (c : nat) (l : list A) :
  (forall x r, f x = Ok r -> length r = c) ->
  forall rs, comprehension f l = Ok rs -> length rs = length l /\ Spec.width c rs.
Proof.
  intros Hf. induction l as [|x l IH]; cbn [comprehension]; intros rs.
  - intros [= <-]. split; [reflexivity | constructor].
  - destruct (f x) as [r|e] eqn:Hx; cbn [bind]; [|discriminate].
    destruct (comprehension f l) as [rs'|e]; cbn [bind]; [|discriminate].
    intros [= <-]. destruct (IH rs' eq_refl) as [H1 H2].
    split; [cbn; now rewrite H1 | constructor; [now apply (Hf x) | exact H2]].
Qed.

End LoopFacts.

(* ================================================================== *)
(** * The properties of the specification *)

Section Properties.

Context {cv : OpenCV}.

Import ListFacts ArrayFacts.

Lemma fargmax_from_bound xs : forall best bi i,
  bi < i -> Np.fargmax_from best bi i xs < i + length xs.
Proof.
  induction xs as [|x xs IH]; intros best bi i Hbi; cbn [Np.fargmax_from length].
  - lia.
  - destruct (negb (PrimFloat.leb x best)).
    + destruct (F.isnan x); [lia|].
      specialize (IH x i (S i)). lia.
    + specialize (IH best bi (S i)). lia.
Qed.

Lemma fargmax_bound l : l <> [] -> Np.fargmax l < length l.
Proof.
  destruct l as [|x xs]; [congruence | intros _]. cbn [Np.fargmax length].
  destruct (F.isnan x); [lia|].
  pose proof (@fargmax_from_bound xs x 0 1). lia.
Qed.

(** [decomp_essential_mat]: the candidate at the argmax of the sums. *)
Lemma decomp_alt_result self E q1 q2 :
  decomp_essential_mat self E q1 q2
  = Some (nth (Np.fargmax (map (alt_sum self q1 q2) (candidates_alt E))) (candidates_alt E)
              Spec.no_candidate).
Proof.
  pose proof (@fargmax_bound (map (alt_sum self q1 q2) (candidates_alt E))) as Hi.
  rewrite length_map, candidates_alt_length in Hi.
  unfold decomp_essential_mat, candidates_alt in *.
  destruct (decomposeEssentialMat E) as [[R1 R2] t].
  unfold V3.flatten. cbn [combine map] in *.
  change (_form_transf R1 t) with (_form_transf (fst (R1, t)) (snd (R1, t))).
  change (_form_transf R2 t) with (_form_transf (fst (R2, t)) (snd (R2, t))).
  change (_form_transf R1 (V3.neg t))
    with (_form_transf (fst (R1, V3.neg t)) (snd (R1, V3.neg t))).
  change (_form_transf R2 (V3.neg t))
    with (_form_transf (fst (R2, V3.neg t)) (snd (R2, V3.neg t))).
  rewrite !score_of_projection.
  match type of Hi with _ -> ?i < 4 => generalize dependent i end.
  intros i Hi. specialize (Hi ltac:(discriminate)).
  destruct i as [|[|[|[|i]]]]; try lia; reflexivity.
Qed.






(** C2 (amended).  When the essential matrix is finite but the decomposed
    rotation, the scaled translation or the assembled transform holds a
    non-finite value, [get_pose] returns the identity, so a finite Cumulative
    Pose keeps its value; [world_points] has by then received the entry that
    [decomp_essential_mat_old] appends. *)
Theorem degenerate_decomposition_gives_identity_after_append
        (self : CameraPoses) (q1 q2 : Np.array2) :
  let E := findEssentialMat q1 q2 (K self) in
  let R := fst (fst (decomp_essential_mat_old self E q1 q2)) in
  let t := snd (fst (decomp_essential_mat_old self E q1 q2)) in
  nonfinite E = false ->
  nonfinite (V3.rows R) || nonfinite [V3.to_array t] || nonfinite (_form_transf R t) = true ->
  fst (get_pose self q1 q2) = Np.eye 4 /\
  (exists Q, world_points (snd (get_pose self q1 q2)) = world_points self ++ [Q]) /\
  forall cur, Spec.width 4 cur -> Np.all_finite cur = true ->
              Np.array_equal (Np.matmul cur (fst (get_pose self q1 q2))) cur = true.
Proof.
  intros E R t HE Hbad.
  destruct (decomp_old_result self E q1 q2) as [_ [Q HQ]].
  assert (H : fst (get_pose self q1 q2) = Np.eye 4 /\
              world_points (snd (get_pose self q1 q2)) = world_points self ++ [Q]).
  { unfold get_pose. fold E. rewrite HE. unfold R, t in Hbad.
    destruct (decomp_essential_mat_old self E q1 q2) as [[R' t'] self'].
    cbn [fst snd] in *. subst self'. unfold V3.squeeze.
    destruct (nonfinite (V3.rows R')); [now split|].
    destruct (nonfinite [V3.to_array t']); [now split|].
    cbn [orb] in Hbad. rewrite Hbad. now split. }
  destruct H as [H1 H2]. rewrite H1. repeat split.
  - now exists Q.
  - intros cur Hw Hf. now apply matmul_eye4.
Qed.


(** C5.  When either image of a pair yields 6 or fewer keypoints,
    [get_matches] returns the sentinel (no exception is raised), and the pass
    of the loop on that pair leaves the Cumulative Pose and [world_points] as
    they were. *)
Theorem too_few_keypoints_skip_the_pair (s : Session) (old : image) (tick : Tick) :
  process_frames s = true -> old_frame s = Some old ->
  length (fst (detectAndCompute old)) <= 6 \/ length (fst (detectAndCompute (frame tick))) <= 6 ->
  get_matches (vo s) old (frame tick) = Ok None /\
  exists s', iteration s tick = Ok s' /\
             cur_pose s' = cur_pose s /\
             world_points (vo s') = world_points (vo s).
Proof.
  intros Hp Ho Hk.
  assert (Hm : forall self, get_matches self old (frame tick) = Ok None).
  { intros self. unfold get_matches.
    destruct (detectAndCompute old) as [kp1 des1], (detectAndCompute (frame tick)) as [kp2 des2].
    cbn [fst] in Hk.
    replace ((6 <? length kp1) && (6 <? length kp2)) with false; [reflexivity|].
    symmetry. apply andb_false_iff.
    destruct Hk as [Hk | Hk]; [left | right]; apply Nat.ltb_ge; exact Hk. }
  split; [apply Hm|].
  unfold iteration. cbn [process_frames old_frame]. rewrite Hp, Ho.
  unfold process_pair. cbn [vo]. rewrite Hm. cbn [bind].
  eexists. split; [reflexivity|]. cbn. now split.
Qed.

(** C6 (amended).  With more than 6 keypoints in both images, the
    correspondences come from the matches that precede the first entry
    lacking a second neighbour: of those, a match is kept if and only if its
    best distance is strictly below 0.5 times its second-best distance; that
    entry and every match after it are dropped, and no [ValueError] leaves
    the method. *)
Theorem ratio_test_up_to_first_short_entry
        (self : CameraPoses) (img1 img2 : image) :
  let kp1 := fst (detectAndCompute img1) in
  let kp2 := fst (detectAndCompute img2) in
  let matches := knnMatch (snd (detectAndCompute img1)) (snd (detectAndCompute img2)) 2 in
  let good := Spec.accepted (Spec.two_neighbour_prefix matches) in
  6 < length kp1 -> 6 < length kp2 ->
  snd (for_matches matches []) = good /\
  (forall m, In m good <->
             exists n, In [m; n] (Spec.two_neighbour_prefix matches) /\ ratio_test m n = true) /\
  get_matches self img1 img2
  = (q1 <- comprehension (fun m => k <- getitem kp1 (queryIdx m) ;; Ok (pt_row k)) good ;;
     q2 <- comprehension (fun m => k <- getitem kp2 (trainIdx m) ;; Ok (pt_row k)) good ;;
     Ok (Some (q1, q2))).
Proof.
  intros kp1 kp2 matches good H1 H2.
  destruct (for_matches_prefix matches []) as [Hg He]. cbn [app] in Hg. fold good in Hg.
  split; [exact Hg|]. split.
  - intros m. split.
    + apply in_accepted_prefix.
    + intros (n & Hn & Hr). now apply accepted_prefix_in with n.
  - unfold get_matches. subst kp1 kp2 matches.
    destruct (detectAndCompute img1) as [kp1 des1], (detectAndCompute img2) as [kp2 des2].
    cbn [fst snd] in *.
    apply Nat.ltb_lt in H1, H2. rewrite H1, H2. cbn [andb].
    destruct (for_matches (knnMatch des1 des2 2) []) as [raised gm].
    cbn [fst snd] in *. rewrite He. cbn [bind]. now subst gm.
Qed.

(** C7 (the code at the failing input).  With [skip_frames = 2] in force, a
    capture of 100 frames during which [q] is not pressed makes the loop count
    100 frames and run 99 pairwise steps: the stride plays no part. *)
Theorem video_loop_ignores_the_stride (cap : list Tick) (s' : Session) :
  length cap = 100 ->
  forallb (fun t => negb (Z.land (key t) 255 =? 113)%Z) cap = true ->
  main cap = Ok s' ->
  skip_frames = 2%Z /\
  frame_counter s' = 100%Z /\
  length (camera_pose_list s') = 99.
Proof.
  intros Hl Hq Hrun. destruct (main_counts cap Hq Hrun) as [H1 H2].
  rewrite Hl in H1, H2. now repeat split.
Qed.

(** X1.  The two sequences [get_matches] returns have the same length, and
    every element of either is a pixel position (x, y). *)
Theorem correspondences_are_index_aligned
        (self : CameraPoses) (img1 img2 : image) (q1 q2 : Np.array2) :
  get_matches self img1 img2 = Ok (Some (q1, q2)) ->
  length q1 = length q2 /\ Spec.width 2 q1 /\ Spec.width 2 q2.
Proof.
  unfold get_matches.
  destruct (detectAndCompute img1) as [kp1 des1], (detectAndCompute img2) as [kp2 des2].
  destruct ((6 <? length kp1) && (6 <? length kp2)); [|discriminate].
  destruct (for_matches (knnMatch des1 des2 2) []) as [raised good].
  destruct (except_ValueError raised); cbn [bind]; [|discriminate].
  assert (Hrow : forall (kp : list KeyPoint) (idx : DMatch -> Z) m r,
             (k <- getitem kp (idx m) ;; Ok (pt_row k)) = Ok r -> length r = 2).
  { intros kp idx m r. destruct (getitem kp (idx m)); cbn [bind]; [|discriminate].
    now intros [= <-]. }
  destruct (comprehension _ good) as [r1|e] eqn:H1; cbn [bind]; [|discriminate].
  destruct (comprehension (fun m => k <- getitem kp2 (trainIdx m) ;; Ok (pt_row k)) good)
    as [r2|e] eqn:H2; cbn [bind]; [|discriminate].
  intros [= <- <-].
  destruct (comprehension_shape _ good (Hrow kp1 queryIdx) H1) as [L1 W1].
  destruct (comprehension_shape _ good (Hrow kp2 trainIdx) H2) as [L2 W2].
  repeat split; trivial.
  transitivity (length good); [exact L1 | symmetry; exact L2].
Qed.

(** X2.  A call of [get_pose] appends exactly one entry to [world_points]
    when the essential matrix is finite, whatever the decomposition turns out
    to be, and none when it is not; the entries already there are kept. *)
Theorem world_points_grow_by_finite_essential (self : CameraPoses) (q1 q2 : Np.array2) :
  exists Qs,
    world_points (snd (get_pose self q1 q2)) = world_points self ++ Qs /\
    length Qs = if nonfinite (findEssentialMat q1 q2 (K self)) then 0 else 1.
Proof.
  unfold get_pose. destruct (nonfinite (findEssentialMat q1 q2 (K self))).
  - exists []. cbn. now rewrite app_nil_r.
  - destruct (decomp_old_result self (findEssentialMat q1 q2 (K self)) q1 q2) as [_ [Q HQ]].
    destruct (decomp_essential_mat_old self _ q1 q2) as [[R t] self'].
    cbn [snd] in HQ. subst self'. exists [Q].
    destruct (nonfinite (V3.rows R)); [now split|].
    destruct (nonfinite [V3.to_array t]); [now split|].
    destruct (nonfinite (_form_transf R (V3.squeeze t))); now split.
Qed.

(** X3.  However the loop ends, the Cumulative Pose is a 3x4 array. *)
Theorem cumulative_pose_stays_3x4 (cap : list Tick) (s' : Session) :
  main cap = Ok s' -> length (cur_pose s') = 3 /\ Spec.width 4 (cur_pose s').
Proof.
  intros Hrun. apply (video_loop_keeps_shape cap initial Hrun).
  split; [reflexivity | repeat constructor].
Qed.

End Properties.

(* ================================================================== *)
(** * The program on concrete inputs *)

Import Scenario.

(** The slicing of [_load_images]: 100 listed files at stride 2 give 50 images. *)
Lemma load_images_stride_2 :
  match @_load_images featureless "frames" skip_frames with
  | Ok images => length images = 50
  | Raise _ => False
  end.
Proof. vm_compute. reflexivity. Qed.


(** C2, refuted as stated: two coincident triangulated points make the
    relative scale NaN; the essential matrix and the rotation are finite, the
    translation is not, [get_pose] answers with the identity, and
    [world_points], empty before the call, holds one entry after it. *)
Lemma degenerate_pair_is_still_appended :
  let E := @findEssentialMat coincident (q_of 0) (q_of 1) (K self0) in
  let Rt := fst (@decomp_essential_mat_old coincident self0 E (q_of 0) (q_of 1)) in
  let r := @get_pose coincident self0 (q_of 0) (q_of 1) in
  nonfinite E = false /\
  nonfinite (V3.rows (fst Rt)) = false /\
  nonfinite [V3.to_array (snd Rt)] = true /\
  fst r = Np.eye 4 /\
  printed (snd r) = ["Error: Translation vector contains NaN or Inf values"%string] /\
  world_points self0 = [] /\
  length (world_points (snd r)) = 1.
Proof. vm_compute. repeat (split; try reflexivity). Qed.



(** C6, refuted as stated: the first entry holds one match, the second holds
    a best match at distance 1 and a second at distance 4; the second entry
    passes the ratio test and yet no correspondence is returned. *)
Lemma match_after_short_entry_is_lost :
  @knnMatch short_entry 0 1 2 = [[lone]; [best; second]] /\
  ratio_test best second = true /\
  Spec.accepted [[lone]; [best; second]] = [best] /\
  @get_matches short_entry self0 0 1 = Ok (Some ([], [])).
Proof. vm_compute. repeat (split; try reflexivity). Qed.

(** Witness of C2 (amended). *)
Lemma degenerate_decomposition_witness :
  let E := @findEssentialMat coincident (q_of 0) (q_of 1) (K self0) in
  let Rt := fst (@decomp_essential_mat_old coincident self0 E (q_of 0) (q_of 1)) in
  nonfinite E = false /\
  nonfinite (V3.rows (fst Rt)) || nonfinite [V3.to_array (snd Rt)]
    || nonfinite (_form_transf (fst Rt) (snd Rt)) = true /\
  fst (@get_pose coincident self0 (q_of 0) (q_of 1)) = Np.eye 4.
Proof.
  split; [vm_compute; reflexivity|].
  split; [vm_compute; reflexivity|].
  apply (@degenerate_decomposition_gives_identity_after_append coincident self0 (q_of 0) (q_of 1));
    vm_compute; reflexivity.
Defined.



(** Witness of C5. *)
Lemma too_few_keypoints_witness :
  let s1 := @run featureless (map (@tick featureless) [0]) in
  process_frames s1 = true /\ old_frame s1 = Some 0 /\
  length (fst (@detectAndCompute featureless 0)) <= 6 /\
  @get_matches featureless (vo s1) 0 1 = Ok None.
Proof.
  split; [vm_compute; reflexivity|].
  split; [vm_compute; reflexivity|].
  split; [vm_compute; lia|].
  apply (@too_few_keypoints_skip_the_pair featureless
           (@run featureless (map (@tick featureless) [0])) 0 (@tick featureless 1)).
  - vm_compute; reflexivity.
  - vm_compute; reflexivity.
  - left. vm_compute. lia.
Defined.

(** Witness of C6 (amended). *)
Lemma ratio_test_witness :
  6 < length (fst (@detectAndCompute short_entry 0)) /\
  6 < length (fst (@detectAndCompute short_entry 1)) /\
  snd (for_matches (@knnMatch short_entry 0 1 2) []) = [].
Proof.
  split; [vm_compute; lia|].
  split; [vm_compute; lia|].
  apply (@ratio_test_up_to_first_short_entry short_entry self0 0 1); vm_compute; lia.
Defined.

(** Witness of C7: a capture of 100 featureless frames. *)
Lemma hundred_frames_witness :
  let cap := map (@tick featureless) (seq 0 100) in
  length cap = 100 /\
  @main featureless cap = Ok (@run featureless cap) /\
  frame_counter (@run featureless cap) = 100%Z /\
  length (camera_pose_list (@run featureless cap)) = 99.
Proof.
  split; [vm_compute; reflexivity|].
  split; [vm_compute; reflexivity|].
  apply (@video_loop_ignores_the_stride featureless (map (@tick featureless) (seq 0 100)));
    vm_compute; reflexivity.
Defined.

(** Witness of X1. *)
Lemma index_aligned_witness :
  @get_matches healthy self0 0 1 = Ok (Some (q_of 0, q_of 1)) /\
  length (q_of 0) = length (q_of 1).
Proof.
  split; [vm_compute; reflexivity|].
  apply (@correspondences_are_index_aligned healthy self0 0 1 (q_of 0) (q_of 1)).
  vm_compute; reflexivity.
Defined.

(** Witness of X3. *)
Lemma pose_shape_witness :
  let cap := map (@tick healthy) [0; 1; 2] in
  @main healthy cap = Ok (@run healthy cap) /\
  length (cur_pose (@run healthy cap)) = 3.
Proof.
  split; [vm_compute; reflexivity|].
  apply (@cumulative_pose_stays_3x4 healthy (map (@tick healthy) [0; 1; 2])).
  vm_compute; reflexivity.
Defined.

(* ================================================================== *)
(** * More facts about binary64 arithmetic *)

Module MoreFloatFacts.

Import F FloatFacts.

Lemma SFmul_comm x y : SF64mul x y = SF64mul y x.
Proof.
  unfold SF64mul.
  destruct x as [sx|sx| |sx mx ex], y as [sy|sy| |sy my ey]; cbn [SFmul];
    try reflexivity; try (now rewrite xorb_comm).
  to_binint. now rewrite xorb_comm, Pos.mul_comm, Z.add_comm.
Qed.

Lemma mul_comm x y : PrimFloat.mul x y = PrimFloat.mul y x.
Proof. apply Prim2SF_inj. rewrite !mul_spec. apply SFmul_comm. Qed.

Lemma one_mul x : PrimFloat.mul F.one x = x.
Proof. rewrite mul_comm. apply mul_one. Qed.

Lemma zero_mul x : F.finite x = true -> zero_like (PrimFloat.mul F.zero x).
Proof. rewrite mul_comm. apply mul_zero. Qed.


Lemma zero_like_eqb_zero u : zero_like u -> PrimFloat.eqb u F.zero = true.
Proof.
  intros Hu. apply same_value_eqb; [reflexivity|].
  right. split; [exact Hu | now exists false].
Qed.

(** Sums in which every term but at most one is a zero. *)
Ltac zeros :=
  repeat (apply add_zero_like);
  first [ apply mul_zero; assumption | apply zero_mul; assumption ].

Ltac one_term :=
  first
    [ now left
    | apply same_value_add_zero; [assumption | one_term | zeros]
    | apply add_zero_l; [assumption | zeros] ].

End MoreFloatFacts.

(* ================================================================== *)
(** * Further properties of the methods *)

Section MoreMethodProperties.

Context {cv : OpenCV}.

Import F FloatFacts MoreFloatFacts ListFacts ArrayFacts.




Lemma row_times_extrinsic a b c :
  F.finite a = true -> F.finite b = true -> F.finite c = true ->
  Np.array_equal1
    (map (fun j => Np.dot [a; b; c]
                     (Np.column j [[F.one; F.zero; F.zero; F.zero];
                                   [F.zero; F.one; F.zero; F.zero];
                                   [F.zero; F.zero; F.one; F.zero]])) (seq 0 4))
    [a; b; c; F.zero] = true.
Proof.
  intros Ha Hb Hc.
  cbn [seq map Np.array_equal1 Np.column nth].
  unfold Np.dot. cbn [Np.map2 Np.add_reduce fold_left].
  rewrite !mul_one.
  repeat (apply andb_true_intro; split); try reflexivity.
  - apply same_value_eqb; [assumption | one_term].
  - apply same_value_eqb; [assumption | one_term].
  - apply same_value_eqb; [assumption | one_term].
  - apply zero_like_eqb_zero. zeros.
Qed.

(** X4.  The projection matrix of the first camera that [__init__]
    computes, [K @ extrinsic], has the value of K with a zero column
    appended, the matrix the other methods multiply candidate transforms
    with, whenever K is a finite 3x3 array. *)
Theorem first_camera_projection_is_K_with_zero_column
        (data_dir : string) (skip_frames : Z) (K0 : Np.array2) :
  length K0 = 3 -> Spec.width 3 K0 -> Np.all_finite K0 = true ->
  Np.array_equal (P (__init__ data_dir skip_frames K0))
                 (Np.concatenate1 K0 (Np.zeros 3 1)) = true.
Proof.
  intros Hl Hw Hf.
  destruct K0 as [|r0 [|r1 [|r2 [|? ?]]]]; try discriminate Hl.
  inversion Hw as [|? ? W0 Hw1]; subst. inversion Hw1 as [|? ? W1 Hw2]; subst.
  inversion Hw2 as [|? ? W2 _]; subst.
  destruct r0 as [|a0 [|b0 [|c0 [|? ?]]]]; try discriminate W0.
  destruct r1 as [|a1 [|b1 [|c1 [|? ?]]]]; try discriminate W1.
  destruct r2 as [|a2 [|b2 [|c2 [|? ?]]]]; try discriminate W2.
  cbn [Np.all_finite Np.all_finite1 forallb] in Hf. rewrite !andb_true_iff in Hf.
  destruct Hf as ((A0 & B0 & C0 & _) & (A1 & B1 & C1 & _) & (A2 & B2 & C2 & _) & _).
  unfold __init__. cbn [P]. unfold Np.matmul.
  change (Np.concatenate1 [[a0; b0; c0]; [a1; b1; c1]; [a2; b2; c2]] (Np.zeros 3 1))
    with [[a0; b0; c0; F.zero]; [a1; b1; c1; F.zero]; [a2; b2; c2; F.zero]].
  cbn [Np.ncols length map Np.array_equal].
  rewrite !row_times_extrinsic by assumption. reflexivity.
Qed.

Lemma basis_rows_times_columns a0 a1 a2 a3 :
  F.finite a0 = true -> F.finite a1 = true -> F.finite a2 = true -> F.finite a3 = true ->
  PrimFloat.eqb (Np.dot [F.one; F.zero; F.zero; F.zero] [a0; a1; a2; a3]) a0 = true /\
  PrimFloat.eqb (Np.dot [F.zero; F.one; F.zero; F.zero] [a0; a1; a2; a3]) a1 = true /\
  PrimFloat.eqb (Np.dot [F.zero; F.zero; F.one; F.zero] [a0; a1; a2; a3]) a2 = true /\
  PrimFloat.eqb (Np.dot [F.zero; F.zero; F.zero; F.one] [a0; a1; a2; a3]) a3 = true.
Proof.
  intros H0 H1 H2 H3. unfold Np.dot. cbn [Np.map2 Np.add_reduce fold_left].
  rewrite !one_mul.
  repeat split; (apply same_value_eqb; [assumption | one_term]).
Qed.

(** X5.  The start pose is a left identity of composition: composed with a
    finite 4x4 transform, it becomes the first three rows of that transform. *)
Theorem start_pose_composed_is_the_transform (T : Np.array2) :
  length T = 4 -> Spec.width 4 T -> Np.all_finite T = true ->
  Np.array_equal (Np.matmul start_pose T) (firstn 3 T) = true.
Proof.
  intros Hl Hw Hf.
  destruct T as [|r0 [|r1 [|r2 [|r3 [|? ?]]]]]; try discriminate Hl.
  inversion Hw as [|? ? W0 Hw1]; subst. inversion Hw1 as [|? ? W1 Hw2]; subst.
  inversion Hw2 as [|? ? W2 Hw3]; subst. inversion Hw3 as [|? ? W3 _]; subst.
  destruct r0 as [|a0 [|b0 [|c0 [|d0 [|? ?]]]]]; try discriminate W0.
  destruct r1 as [|a1 [|b1 [|c1 [|d1 [|? ?]]]]]; try discriminate W1.
  destruct r2 as [|a2 [|b2 [|c2 [|d2 [|? ?]]]]]; try discriminate W2.
  destruct r3 as [|a3 [|b3 [|c3 [|d3 [|? ?]]]]]; try discriminate W3.
  cbn [Np.all_finite Np.all_finite1 forallb] in Hf. rewrite !andb_true_iff in Hf.
  destruct Hf as ((A0 & B0 & C0 & D0 & _) & (A1 & B1 & C1 & D1 & _) &
                  (A2 & B2 & C2 & D2 & _) & (A3 & B3 & C3 & D3 & _) & _).
  destruct (basis_rows_times_columns a0 a1 a2 a3 A0 A1 A2 A3) as (Ea0 & Ea1 & Ea2 & _).
  destruct (basis_rows_times_columns b0 b1 b2 b3 B0 B1 B2 B3) as (Eb0 & Eb1 & Eb2 & _).
  destruct (basis_rows_times_columns c0 c1 c2 c3 C0 C1 C2 C3) as (Ec0 & Ec1 & Ec2 & _).
  destruct (basis_rows_times_columns d0 d1 d2 d3 D0 D1 D2 D3) as (Ed0 & Ed1 & Ed2 & _).
  change start_pose with [[F.one; F.zero; F.zero; F.zero];
                          [F.zero; F.one; F.zero; F.zero];
                          [F.zero; F.zero; F.one; F.zero]].
  unfold Np.matmul.
  cbn [Np.ncols length map seq Np.column nth firstn Np.array_equal Np.array_equal1].
  rewrite Ea0, Eb0, Ec0, Ed0, Ea1, Eb1, Ec1, Ed1, Ea2, Eb2, Ec2, Ed2. reflexivity.
Qed.

(** X6.  A candidate transform leaves the homogeneous coordinate of finite
    triangulated points as it is: the fourth row of [T @ hom_Q1] has the
    values of the fourth row of [hom_Q1], so Q2 is divided by the same w
    as Q1. *)
Theorem transform_keeps_homogeneous_coordinate (R : Mat3) (t : Vec3) (pts : list Hom) :
  forallb Spec.finite_point pts = true ->
  Np.array_equal1 (nth 3 (Np.matmul (_form_transf R t) (hom_array pts)) [])
                  (nth 3 (hom_array pts) []) = true.
Proof.
  intros Hf. rewrite matmul_hom_array by apply form_transf_width.
  unfold hom_array. cbn [nth]. rewrite map_map.
  induction pts as [|p pts IH]; [reflexivity|].
  cbn [forallb] in Hf. apply andb_prop in Hf. destruct Hf as [Hp Hf].
  cbn [map Np.array_equal1]. rewrite (IH Hf), andb_true_r.
  unfold Spec.finite_point in Hp. rewrite !andb_true_iff in Hp.
  destruct Hp as (((Hx & Hy) & Hz) & Hw).
  unfold Spec.apply_transf, Spec.coords. cbn [h_w]. rewrite form_transf_entries. cbn [nth].
  now destruct (basis_rows_times_columns (h_x p) (h_y p) (h_z p) (h_w p) Hx Hy Hz Hw)
    as (_ & _ & _ & E).
Qed.

End MoreMethodProperties.

Section MorePoseProperties.

Context {cv : OpenCV}.

Import F FloatFacts MoreFloatFacts ListFacts ArrayFacts.

(** What [decomp_essential_mat_old] appends: the dehomogenized points of
    one more triangulation. *)
Lemma decomp_old_appends self E q1 q2 :
  exists pts,
    snd (decomp_essential_mat_old self E q1 q2)
    = world_points_append self (dehomogenize (hom_array pts)).
Proof.
  unfold decomp_essential_mat_old.
  destruct (decomposeEssentialMat E) as [[R1 R2] t]. cbv zeta.
  destruct (nth _ _ _) as [R t']. eexists. reflexivity.
Qed.

Lemma dehomogenized_shape pts :
  length (dehomogenize (hom_array pts)) = 3 /\
  Spec.width (length pts) (dehomogenize (hom_array pts)).
Proof.
  rewrite dehomogenize_hom_array. split; [reflexivity|].
  repeat constructor; apply length_map.
Qed.

(** The object after [get_pose]: same calibration, same earlier entries. *)
Lemma get_pose_frame self q1 q2 :
  K (snd (get_pose self q1 q2)) = K self /\
  extrinsic (snd (get_pose self q1 q2)) = extrinsic self /\
  P (snd (get_pose self q1 q2)) = P self /\
  exists Qs, world_points (snd (get_pose self q1 q2)) = world_points self ++ Qs /\
             length Qs <= 1 /\
             Forall (fun Q => length Q = 3 /\ exists n, Spec.width n Q) Qs.
Proof.
  unfold get_pose. destruct (nonfinite (findEssentialMat q1 q2 (K self))).
  - cbn [fst snd print K extrinsic P world_points]. repeat split. exists [].
    split; [now rewrite app_nil_r|]. split; [cbn; lia | constructor].
  - destruct (decomp_old_appends self (findEssentialMat q1 q2 (K self)) q1 q2) as [pts Hp].
    destruct (decomp_essential_mat_old self _ q1 q2) as [[R t] self'].
    cbn [snd] in Hp. subst self'.
    assert (HQ : Forall (fun Q => length Q = 3 /\ exists n, Spec.width n Q)
                        [dehomogenize (hom_array pts)]).
    { constructor; [|constructor]. destruct (dehomogenized_shape pts) as [H1 H2].
      split; [exact H1 | now exists (length pts)]. }
    destruct (nonfinite (V3.rows R)); [|destruct (nonfinite [V3.to_array t]);
      [|destruct (nonfinite (_form_transf R (V3.squeeze t)))]];
      cbn [fst snd print world_points_append K extrinsic P world_points];
      (split; [reflexivity|]; split; [reflexivity|]; split; [reflexivity|];
       exists [dehomogenize (hom_array pts)];
       split; [reflexivity|]; split; [cbn; lia | exact HQ]).
Qed.


(** X8.  The matrix [get_pose] returns is a homogeneous transform: 4x4 with
    last row (0, 0, 0, 1). *)
Theorem get_pose_returns_an_affine_matrix (self : CameraPoses) (q1 q2 : Np.array2) :
  Spec.homogeneous_pose (fst (get_pose self q1 q2)).
Proof.
  unfold Spec.homogeneous_pose.
  destruct (get_pose_cases self q1 q2) as [-> | (R & t & -> & _)].
  - split; [reflexivity|]. split; [repeat constructor | reflexivity].
  - rewrite form_transf_entries. split; [reflexivity|]. split; [repeat constructor | reflexivity].
Qed.




(** X10.  The cheirality score of a candidate lies between 0 and twice the
    number of triangulated points. *)
Theorem cheirality_score_is_bounded
        (self : CameraPoses) (q1 q2 : Np.array2) (R : Mat3) (t : Vec3) :
  (0 <= fst (sum_z_cal_relative_scale self q1 q2 R t)
   <= 2 * Z.of_nat (length (candidate_points self q1 q2 R t)))%Z.
Proof.
  rewrite score_of_candidate. cbn [fst].
  unfold candidate_cheirality, Spec.cheirality, Spec.count_positive_depth. cbn [fst snd].
  pose proof (filter_length_le Spec.positive_depth (candidate_points self q1 q2 R t)) as H1.
  pose proof (filter_length_le Spec.positive_depth (candidate_points2 self q1 q2 R t)) as H2.
  unfold candidate_points2 in H2 at 2. rewrite length_map in H2. lia.
Qed.


(** X12.  [decomp_essential_mat] never falls through its if/elif chain: it
    returns one of the two rotations with the decomposed translation or its
    negation, never scaled. *)
Theorem decomp_essential_mat_returns_an_unscaled_candidate
        (self : CameraPoses) (E q1 q2 : Np.array2) :
  exists R t',
    decomp_essential_mat self E q1 q2 = Some (R, t') /\
    (R = fst (fst (decomposeEssentialMat E)) \/ R = snd (fst (decomposeEssentialMat E))) /\
    (t' = snd (decomposeEssentialMat E) \/ t' = V3.neg (snd (decomposeEssentialMat E))).
Proof.
  rewrite decomp_alt_result.
  pose proof (@fargmax_bound (map (alt_sum self q1 q2) (candidates_alt E))) as Hi.
  rewrite length_map, candidates_alt_length in Hi.
  unfold candidates_alt in *. destruct (decomposeEssentialMat E) as [[R1 R2] t].
  cbn [fst snd].
  match type of Hi with _ -> ?i < 4 => generalize dependent i end.
  intros i Hi. specialize (Hi ltac:(discriminate)).
  destruct i as [|[|[|[|i]]]]; try lia; cbn [nth]; eexists; eexists;
    (split; [reflexivity | split; auto]).
Qed.

End MorePoseProperties.

Section MoreMatchProperties.

Context {cv : OpenCV}.

Import ListFacts ArrayFacts.

Lemma getitem_raises_index_error {A} (l : list A) i e : getitem l i = Raise e -> e = IndexError.
Proof.
  unfold getitem. destruct (_ && _)%bool; [|now intros [= <-]].
  destruct (nth_error l _); [discriminate | now intros [= <-]].
Qed.

Lemma getitem_valid {A} (l : list A) i :
  Spec.valid_index (length l) i = true -> exists a, getitem l i = Ok a.
Proof.
  unfold Spec.valid_index, getitem. intros H. apply andb_prop in H. destruct H as [H1 H2].
  apply Z.leb_le in H1. apply Z.ltb_lt in H2.
  set (n := Z.of_nat (length l)) in *.
  set (j := if (i <? 0)%Z then (n + i)%Z else i).
  assert (Hj : (0 <= j < n)%Z) by (unfold j; destruct (Z.ltb_spec i 0); lia).
  replace ((0 <=? j)%Z && (j <? n)%Z) with true
    by (symmetry; apply andb_true_intro; split; [apply Z.leb_le | apply Z.ltb_lt]; lia).
  destruct (nth_error l (Z.to_nat j)) as [a|] eqn:Hn; [now exists a|].
  apply nth_error_None in Hn. unfold n in Hj. lia.
Qed.

Lemma comprehension_raises {A B} (f : A -> result B) (l : list A) :
  (forall x e, f x = Raise e -> e = IndexError) ->
  forall e, comprehension f l = Raise e -> e = IndexError.
Proof.
  intros Hf. induction l as [|x l IH]; cbn [comprehension]; intros e; [discriminate|].
  destruct (f x) as [y|e'] eqn:Hx; cbn [bind].
  - destruct (comprehension f l) as [ys|e'']; cbn [bind]; [discriminate|].
    intros [= <-]. now apply IH.
  - intros [= <-]. now apply (Hf x).
Qed.

Lemma comprehension_returns {A B} (f : A -> result B) (l : list A) :
  (forall x, In x l -> exists y, f x = Ok y) -> exists ys, comprehension f l = Ok ys.
Proof.
  induction l as [|x l IH]; intros Hf; cbn [comprehension]; [now eexists|].
  destruct (Hf x (or_introl eq_refl)) as [y ->]. cbn [bind].
  destruct IH as [ys ->]; [intros z Hz; apply Hf; now right|]. cbn [bind]. now eexists.
Qed.

Lemma prefix_incl matches item :
  In item (Spec.two_neighbour_prefix matches) -> In item matches.
Proof.
  induction matches as [|it rest IH]; [intros []|].
  destruct it as [|m [|n [|x it]]]; cbn [Spec.two_neighbour_prefix]; try (now intros []).
  intros [<- | H]; [now left | right; now apply IH].
Qed.

Lemma accepted_length pre : length (Spec.accepted pre) <= length pre.
Proof.
  induction pre as [|it rest IH]; [cbn; lia|].
  destruct it as [|m [|n [|x it]]]; cbn [Spec.accepted length]; try lia.
  destruct (ratio_test m n); cbn [length]; lia.
Qed.

Lemma prefix_length matches : length (Spec.two_neighbour_prefix matches) <= length matches.
Proof.
  induction matches as [|it rest IH]; [cbn; lia|].
  destruct it as [|m [|n [|x it]]]; cbn [Spec.two_neighbour_prefix length]; lia.
Qed.

Lemma pick_raises (kp : list KeyPoint) (idx : DMatch -> Z) m e :
  (k <- getitem kp (idx m) ;; Ok (pt_row k)) = Raise e -> e = IndexError.
Proof.
  destruct (getitem kp (idx m)) eqn:Hg; cbn [bind]; [discriminate|].
  intros [= <-]. now apply getitem_raises_index_error in Hg.
Qed.

(** X13.  The only exception that leaves [get_matches] is [IndexError],
    from a match whose index is out of the range of the keypoint list: the
    [ValueError] of unpacking is caught. *)
Theorem get_matches_raises_only_index_error
        (self : CameraPoses) (img1 img2 : image) (e : exn) :
  get_matches self img1 img2 = Raise e -> e = IndexError.
Proof.
  unfold get_matches.
  destruct (detectAndCompute img1) as [kp1 des1], (detectAndCompute img2) as [kp2 des2].
  destruct ((6 <? length kp1) && (6 <? length kp2)); [|discriminate].
  destruct (for_matches_prefix (knnMatch des1 des2 2) []) as [_ He].
  destruct (for_matches (knnMatch des1 des2 2) []) as [raised good].
  cbn [fst] in He. rewrite He. cbn [bind].
  destruct (comprehension _ good) as [r1|e1] eqn:H1; cbn [bind].
  - destruct (comprehension (fun m => k <- getitem kp2 (trainIdx m) ;; Ok (pt_row k)) good)
      as [r2|e2] eqn:H2; cbn [bind]; [discriminate|].
    intros [= <-]. revert H2. apply comprehension_raises. intros m e'. apply pick_raises.
  - intros [= <-]. revert H1. apply comprehension_raises. intros m e'. apply pick_raises.
Qed.

(** X14.  When every match the matcher returns points into both keypoint
    lists, [get_matches] returns without an exception. *)
Theorem get_matches_returns_on_valid_indices (self : CameraPoses) (img1 img2 : image) :
  forallb (forallb (Spec.valid_match (fst (detectAndCompute img1)) (fst (detectAndCompute img2))))
          (knnMatch (snd (detectAndCompute img1)) (snd (detectAndCompute img2)) 2) = true ->
  exists r, get_matches self img1 img2 = Ok r.
Proof.
  unfold get_matches.
  destruct (detectAndCompute img1) as [kp1 des1], (detectAndCompute img2) as [kp2 des2].
  cbn [fst snd]. intros Hv.
  destruct ((6 <? length kp1) && (6 <? length kp2)); [|now eexists].
  destruct (for_matches_prefix (knnMatch des1 des2 2) []) as [Hg He].
  destruct (for_matches (knnMatch des1 des2 2) []) as [raised good].
  cbn [fst snd app] in Hg, He. rewrite He. cbn [bind].
  assert (Hgood : forall m, In m good -> Spec.valid_match kp1 kp2 m = true).
  { intros m Hm. rewrite Hg in Hm. apply in_accepted_prefix in Hm.
    destruct Hm as (n & Hn & _). apply prefix_incl in Hn.
    rewrite forallb_forall in Hv. specialize (Hv _ Hn).
    cbn [forallb] in Hv. now apply andb_prop in Hv. }
  destruct (@comprehension_returns _ _
              (fun m => k <- getitem kp1 (queryIdx m) ;; Ok (pt_row k)) good) as [r1 ->].
  { intros m Hm. apply Hgood in Hm. apply andb_prop in Hm.
    destruct (getitem_valid kp1 (queryIdx m) (proj1 Hm)) as [a ->]. cbn [bind]. now eexists. }
  destruct (@comprehension_returns _ _
              (fun m => k <- getitem kp2 (trainIdx m) ;; Ok (pt_row k)) good) as [r2 ->].
  { intros m Hm. apply Hgood in Hm. apply andb_prop in Hm.
    destruct (getitem_valid kp2 (trainIdx m) (proj2 Hm)) as [a ->]. cbn [bind]. now eexists. }
  cbn [bind]. now eexists.
Qed.

(** X15.  [get_matches] returns at most one correspondence per entry of
    the matcher's answer. *)
Theorem correspondences_are_at_most_the_matches
        (self : CameraPoses) (img1 img2 : image) (q1 q2 : Np.array2) :
  get_matches self img1 img2 = Ok (Some (q1, q2)) ->
  length q1 <= length (knnMatch (snd (detectAndCompute img1)) (snd (detectAndCompute img2)) 2).
Proof.
  unfold get_matches.
  destruct (detectAndCompute img1) as [kp1 des1], (detectAndCompute img2) as [kp2 des2].
  cbn [snd].
  destruct ((6 <? length kp1) && (6 <? length kp2)); [|discriminate].
  destruct (for_matches_prefix (knnMatch des1 des2 2) []) as [Hg He].
  destruct (for_matches (knnMatch des1 des2 2) []) as [raised good].
  cbn [fst snd app] in Hg, He. rewrite He. cbn [bind].
  destruct (comprehension _ good) as [r1|e1] eqn:H1; cbn [bind]; [|discriminate].
  destruct (comprehension (fun m => k <- getitem kp2 (trainIdx m) ;; Ok (pt_row k)) good)
    as [r2|e2]; cbn [bind]; [|discriminate].
  intros [= <- <-].
  assert (Hrow : forall m r,
             (k <- getitem kp1 (queryIdx m) ;; Ok (pt_row k)) = Ok r -> length r = 2).
  { intros m r. destruct (getitem kp1 (queryIdx m)); cbn [bind]; [|discriminate].
    now intros [= <-]. }
  destruct (comprehension_shape _ good Hrow H1) as [Hl _].
  pose proof (accepted_length (Spec.two_neighbour_prefix (knnMatch des1 des2 2))) as Ha.
  pose proof (prefix_length (knnMatch des1 des2 2)) as Hp.
  rewrite <- Hg in Ha.
  apply Nat.le_trans with (length good); [|lia].
  apply Nat.eq_le_incl. exact Hl.
Qed.

End MoreMatchProperties.

Section MoreLoopProperties.

Context {cv : OpenCV}.

Import ListFacts ArrayFacts.

(** What the pairwise block records. *)
Lemma process_pair_records (s : Session) old new_frame p :
  process_pair s old new_frame = Ok p ->
  camera_pose_list p = camera_pose_list s ++ [cur_pose p ++ [Spec.affine_row]] /\
  estimated_path p = estimated_path s ++ [(entry (cur_pose p) 0 3, entry (cur_pose p) 2 3)].
Proof.
  unfold process_pair.
  destruct (get_matches (vo s) old new_frame) as [[[q1 q2]|]|e]; cbn [bind]; try discriminate.
  - destruct ((20 <? length q1) && (20 <? length q2)).
    + destruct (get_pose (vo s) q1 q2) as [transf vo']. intros [= <-]. now split.
    + intros [= <-]. now split.
  - intros [= <-]. now split.
Qed.

Lemma iteration_records (s : Session) tick s' :
  iteration s tick = Ok s' ->
  (camera_pose_list s' = camera_pose_list s /\ estimated_path s' = estimated_path s) \/
  (camera_pose_list s' = camera_pose_list s ++ [cur_pose s' ++ [Spec.affine_row]] /\
   estimated_path s'
   = estimated_path s ++ [(entry (cur_pose s') 0 3, entry (cur_pose s') 2 3)]).
Proof.
  unfold iteration. cbn [process_frames old_frame].
  destruct (process_frames s); [destruct (old_frame s) as [old|]|].
  - match goal with |- context [process_pair ?a ?b ?c] =>
      destruct (process_pair a b c) as [p|e] eqn:Hp end; cbn [bind]; [|discriminate].
    intros [= <-]. right. apply process_pair_records in Hp. exact Hp.
  - cbn [bind]. intros [= <-]. now left.
  - cbn [bind]. intros [= <-]. now left.
Qed.

Lemma iteration_frame (s : Session) tick s' :
  iteration s tick = Ok s' ->
  K (vo s') = K (vo s) /\ P (vo s') = P (vo s) /\
  exists Qs, world_points (vo s') = world_points (vo s) ++ Qs /\
             length Qs + length (camera_pose_list s) <= length (camera_pose_list s').
Proof.
  intros Hit.
  assert (Hsame : vo s' = vo s -> length (camera_pose_list s) <= length (camera_pose_list s') ->
                  K (vo s') = K (vo s) /\ P (vo s') = P (vo s) /\
                  exists Qs, world_points (vo s') = world_points (vo s) ++ Qs /\
                             length Qs + length (camera_pose_list s)
                             <= length (camera_pose_list s')).
  { intros -> Hl. repeat split. exists []. split; [now rewrite app_nil_r | cbn; lia]. }
  destruct (process_frames s) eqn:Hp.
  - destruct (old_frame s) as [old|] eqn:Ho.
    + destruct (iteration_next s tick Hp Ho Hit) as (p & Hpp & Hv & _ & Hl & _).
      destruct (process_pair_outcome _ _ _ Hpp) as (Hlp & _ & [[_ Hvo] | (q1 & q2 & _ & _ & Hvo)]);
        cbn [vo camera_pose_list] in *.
      * apply Hsame; [congruence | rewrite Hl, Hlp; lia].
      * rewrite Hv, Hvo, Hl, Hlp.
        destruct (get_pose_frame (vo s) q1 q2) as (HK & _ & HP & Qs & HQ & HlQ & _).
        repeat split; trivial. exists Qs. split; [exact HQ | lia].
    + unfold iteration in Hit. cbn [process_frames old_frame] in Hit.
      rewrite Hp, Ho in Hit. cbn in Hit. injection Hit as <-. apply Hsame; cbn; trivial.
  - destruct (iteration_first s tick Hp) as (s1 & Hit1 & _ & Hl & _ & Hv & _).
    rewrite Hit in Hit1. injection Hit1 as ->. apply Hsame; [exact Hv | rewrite Hl; lia].
Qed.

Lemma video_loop_frame (cap : list Tick) : forall (s s' : Session),
  video_loop s cap = Ok s' ->
  K (vo s') = K (vo s) /\ P (vo s') = P (vo s) /\
  exists Qs, world_points (vo s') = world_points (vo s) ++ Qs /\
             length Qs + length (camera_pose_list s) <= length (camera_pose_list s').
Proof.
  induction cap as [|tick cap IH]; intros s s'; cbn [video_loop].
  - intros [= <-]. repeat split. exists []. split; [now rewrite app_nil_r | cbn; lia].
  - destruct (iteration s tick) as [s1|e] eqn:Hit; cbn [bind]; [|discriminate].
    destruct (iteration_frame s tick Hit) as (HK & HP & Qs & HQ & Hl).
    destruct (Z.land (key tick) 255 =? 113)%Z.
    + intros [= <-]. repeat split; trivial. now exists Qs.
    + intros Hrun. destruct (IH s1 s' Hrun) as (HK' & HP' & Qs' & HQ' & Hl').
      repeat split; try congruence. exists (Qs ++ Qs').
      split; [now rewrite HQ', HQ, app_assoc | rewrite length_app; lia].
Qed.

(** X16.  A pair for which [get_matches] returns 20 or fewer
    correspondences is not given to [get_pose]: the pass leaves the
    Cumulative Pose and the object [vo] as they were, and still records the
    unchanged pose in the trajectory. *)
Theorem few_correspondences_keep_the_pose
        (s : Session) (old : image) (tick : Tick) (q1 q2 : Np.array2) :
  process_frames s = true -> old_frame s = Some old ->
  get_matches (vo s) old (frame tick) = Ok (Some (q1, q2)) ->
  length q1 <= 20 \/ length q2 <= 20 ->
  exists s', iteration s tick = Ok s' /\
             cur_pose s' = cur_pose s /\ vo s' = vo s /\
             camera_pose_list s' = camera_pose_list s ++ [cur_pose s ++ [Spec.affine_row]].
Proof.
  intros Hp Ho Hm Hq. unfold iteration. cbn [process_frames old_frame]. rewrite Hp, Ho.
  unfold process_pair. cbn [vo]. rewrite Hm. cbn [bind].
  replace ((20 <? length q1) && (20 <? length q2)) with false.
  - eexists. split; [reflexivity|]. cbn. now repeat split.
  - symmetry. apply andb_false_iff.
    destruct Hq as [Hq | Hq]; [left | right]; apply Nat.ltb_ge; exact Hq.
Qed.

(** X17.  The pass during which the key code has low byte 113 ([q]) is the
    last one: the frames after it are not processed, whatever they are. *)
Theorem key_q_ends_the_loop (s : Session) (before after : list Tick) (tick : Tick) :
  Z.land (key tick) 255 = 113%Z ->
  video_loop s (before ++ tick :: after) = video_loop s (before ++ [tick]).
Proof.
  intros Hq. revert s. induction before as [|t before IH]; intros s; cbn [app video_loop].
  - destruct (iteration s tick); cbn [bind]; [|reflexivity].
    apply Z.eqb_eq in Hq. now rewrite Hq.
  - destruct (iteration s t) as [s1|e]; cbn [bind]; [|reflexivity].
    destruct (Z.land (key t) 255 =? 113)%Z; [reflexivity | apply IH].
Qed.

Lemma recorded_invariant_step (s : Session) tick s' :
  iteration s tick = Ok s' ->
  (length (cur_pose s) = 3 /\ Spec.width 4 (cur_pose s)) /\
  Forall Spec.homogeneous_pose (camera_pose_list s) /\
  estimated_path s = map Spec.ground_position (camera_pose_list s) ->
  (length (cur_pose s') = 3 /\ Spec.width 4 (cur_pose s')) /\
  Forall Spec.homogeneous_pose (camera_pose_list s') /\
  estimated_path s' = map Spec.ground_position (camera_pose_list s').
Proof.
  intros Hit (Hs & Hh & He).
  pose proof (iteration_keeps_shape s tick Hit Hs) as Hs'.
  split; [exact Hs'|].
  destruct (iteration_records s tick Hit) as [[-> ->] | [-> ->]]; [now split|].
  destruct Hs' as [Hl Hw].
  destruct (cur_pose s') as [|r0 [|r1 [|r2 [|? ?]]]] eqn:Hc; try discriminate Hl.
  split.
  - apply Forall_app. split; [exact Hh|]. constructor; [|constructor].
    unfold Spec.homogeneous_pose. split; [reflexivity|]. split; [|reflexivity].
    apply Forall_app. split; [exact Hw | repeat constructor].
  - rewrite map_app, He. reflexivity.
Qed.

Lemma recorded_invariant_loop (cap : list Tick) : forall (s s' : Session),
  video_loop s cap = Ok s' ->
  (length (cur_pose s) = 3 /\ Spec.width 4 (cur_pose s)) /\
  Forall Spec.homogeneous_pose (camera_pose_list s) /\
  estimated_path s = map Spec.ground_position (camera_pose_list s) ->
  (length (cur_pose s') = 3 /\ Spec.width 4 (cur_pose s')) /\
  Forall Spec.homogeneous_pose (camera_pose_list s') /\
  estimated_path s' = map Spec.ground_position (camera_pose_list s').
Proof.
  induction cap as [|tick cap IH]; intros s s'; cbn [video_loop].
  - now intros [= <-].
  - destruct (iteration s tick) as [s1|e] eqn:Hit; cbn [bind]; [|discriminate].
    intros Hrun Hinv. pose proof (recorded_invariant_step s tick Hit Hinv) as H1.
    destruct (Z.land (key tick) 255 =? 113)%Z.
    + now injection Hrun as <-.
    + now apply (IH s1).
Qed.

(** X18.  Every pose the loop records is a 4x4 homogeneous matrix with last
    row (0, 0, 0, 1), and the estimated path lists, pose by pose, the x and z
    translation of the recorded poses. *)
Theorem recorded_poses_are_homogeneous (cap : list Tick) (s' : Session) :
  main cap = Ok s' ->
  Forall Spec.homogeneous_pose (camera_pose_list s') /\
  estimated_path s' = map Spec.ground_position (camera_pose_list s').
Proof.
  intros Hrun. apply (recorded_invariant_loop cap initial Hrun).
  split; [split; [reflexivity | repeat constructor]|]. split; [constructor | reflexivity].
Qed.

(** X19.  The calibration is never modified: after any run the object holds
    the intrinsic matrix and the first camera's projection it was built
    with. *)
Theorem calibration_is_never_modified (cap : list Tick) (s' : Session) :
  main cap = Ok s' ->
  K (vo s') = intrinsic /\ P (vo s') = Np.matmul intrinsic (extrinsic (vo initial)).
Proof.
  intros Hrun. destruct (video_loop_frame cap initial Hrun) as (HK & HP & _).
  split; [exact HK | exact HP].
Qed.

(** X20.  [world_points] only grows, and by at most one entry per recorded
    pose: after any run it holds no more entries than the trajectory. *)
Theorem world_points_at_most_one_per_pair (cap : list Tick) (s s' : Session) :
  video_loop s cap = Ok s' ->
  exists Qs,
    world_points (vo s') = world_points (vo s) ++ Qs /\
    length Qs + length (camera_pose_list s) <= length (camera_pose_list s').
Proof. intros Hrun. now destruct (video_loop_frame cap s Hrun) as (_ & _ & H). Qed.

(** ** [_load_images] *)

Lemma slice_step_aux_nth_error {A} (k : nat) : 0 < k ->
  forall fuel (l : list A) i,
    length l <= fuel -> nth_error (slice_step_aux fuel k l) i = nth_error l (i * k).
Proof.
  intros Hk. induction fuel as [|fuel IH]; intros l i Hl.
  - destruct l; [|cbn in Hl; lia]. cbn [slice_step_aux]. now rewrite !nth_error_nil.
  - destruct l as [|x l]; [cbn [slice_step_aux]; now rewrite !nth_error_nil|].
    cbn [slice_step_aux]. destruct i as [|i]; [reflexivity|].
    cbn [nth_error]. rewrite IH by (rewrite length_skipn; cbn [length] in *; lia).
    rewrite nth_error_skipn. reflexivity.
Qed.

Lemma slice_step_nth_error {A} (l : list A) (k i : nat) :
  0 < k -> nth_error (slice_step l k) i = nth_error l (i * k).
Proof. intros Hk. now apply slice_step_aux_nth_error. Qed.

Lemma load_loop_is_read_all (paths : list string) : forall images,
  fold_left (fun images path =>
               match imread path with
               | Some img => images ++ [img]
               | None => images
               end) paths images
  = images ++ Spec.read_all imread paths.
Proof.
  induction paths as [|path paths IH]; intros images; cbn [fold_left Spec.read_all flat_map].
  - now rewrite app_nil_r.
  - rewrite IH. fold (Spec.read_all imread paths).
    destruct (imread path); [now rewrite <- app_assoc | reflexivity].
Qed.

Lemma joined_paths (filepath : string) (files : list string) :
  Spec.joins_with_separator filepath = true ->
  existsb Spec.starts_with_slash files = false ->
  map (fun file => (filepath ++ "/" ++ file)%string) files
  = map (Spec.path_join filepath) files.
Proof.
  intros Hd Hf. apply map_ext_in. intros file Hin. unfold Spec.path_join.
  assert (Hs : Spec.starts_with_slash file = false).
  { destruct (Spec.starts_with_slash file) eqn:E; [|reflexivity].
    rewrite <- Hf. symmetry. apply existsb_exists. now exists file. }
  rewrite Hs. unfold Spec.joins_with_separator in Hd. apply negb_true_iff in Hd.
  now rewrite Hd.
Qed.

(** X21.  For a directory path to which [os.path.join] adds the separator
    and a listing of plain file names: [_load_images] with stride 0 raises
    [ValueError]; with a positive stride k it reads the joined paths at
    positions 0, k, 2k, ... of the sorted listing, in that order, and leaves
    out without a word those [imread] cannot read; with a negative stride -k
    it does the same from the end of the listing. *)
Theorem load_images_reads_every_kth_file (filepath : string) (stride : Z) :
  Spec.joins_with_separator filepath = true ->
  existsb Spec.starts_with_slash (sorted_listdir filepath) = false ->
  let image_paths := map (Spec.path_join filepath) (sorted_listdir filepath) in
  (stride = 0%Z -> _load_images filepath stride = Raise ValueError) /\
  ((0 < stride)%Z ->
   exists sliced,
     _load_images filepath stride = Ok (Spec.read_all imread sliced) /\
     forall i, nth_error sliced i = nth_error image_paths (i * Z.to_nat stride)) /\
  ((stride < 0)%Z ->
   exists sliced,
     _load_images filepath stride = Ok (Spec.read_all imread sliced) /\
     forall i, nth_error sliced i = nth_error (rev image_paths) (i * Z.to_nat (- stride))).
Proof.
  intros Hd Hf image_paths. unfold _load_images.
  rewrite (joined_paths _ _ Hd Hf). fold image_paths. repeat split.
  - now intros ->.
  - intros Hk. replace (stride =? 0)%Z with false by (symmetry; apply Z.eqb_neq; lia).
    replace (0 <? stride)%Z with true by (symmetry; apply Z.ltb_lt; lia).
    eexists. split; [now rewrite load_loop_is_read_all|].
    intros i. apply slice_step_nth_error. lia.
  - intros Hk. replace (stride =? 0)%Z with false by (symmetry; apply Z.eqb_neq; lia).
    replace (0 <? stride)%Z with false by (symmetry; apply Z.ltb_ge; lia).
    eexists. split; [now rewrite load_loop_is_read_all|].
    intros i. apply slice_step_nth_error. lia.
Qed.

End MoreLoopProperties.

(** ** The further properties at concrete inputs *)

(** Witness of X4. *)
Lemma first_camera_projection_witness :
  length intrinsic = 3 /\ Np.all_finite intrinsic = true /\
  Np.array_equal (P self0) (Np.concatenate1 intrinsic (Np.zeros 3 1)) = true.
Proof.
  split; [reflexivity|]. split; [vm_compute; reflexivity|].
  apply (@first_camera_projection_is_K_with_zero_column data_dir skip_frames intrinsic).
  - reflexivity.
  - repeat constructor.
  - vm_compute; reflexivity.
Defined.

(** Witness of X5. *)
Lemma start_pose_composed_witness :
  let T := fst (@get_pose healthy self0 (q_of 0) (q_of 1)) in
  length T = 4 /\ Np.all_finite T = true /\
  Np.array_equal (Np.matmul start_pose T) (firstn 3 T) = true.
Proof.
  split; [vm_compute; reflexivity|]. split; [vm_compute; reflexivity|].
  apply (@start_pose_composed_is_the_transform (fst (@get_pose healthy self0 (q_of 0) (q_of 1)))).
  - vm_compute; reflexivity.
  - vm_compute. repeat constructor.
  - vm_compute; reflexivity.
Defined.

(** Witness of X6. *)
Lemma homogeneous_coordinate_witness :
  forallb Spec.finite_point three_points = true /\
  Np.array_equal1 (nth 3 (Np.matmul (_form_transf I3 (vec 1 0 0)) (hom_array three_points)) [])
                  (nth 3 (hom_array three_points) []) = true.
Proof.
  split; [vm_compute; reflexivity|].
  apply (@transform_keeps_homogeneous_coordinate I3 (vec 1 0 0) three_points).
  vm_compute; reflexivity.
Defined.



(** Witness of X13. *)
Lemma index_error_witness :
  @get_matches out_of_range self0 0 1 = Raise IndexError /\ IndexError = IndexError.
Proof.
  split; [vm_compute; reflexivity|].
  apply (@get_matches_raises_only_index_error out_of_range self0 0 1 IndexError).
  vm_compute; reflexivity.
Defined.

(** Witness of X14. *)
Lemma valid_indices_witness :
  forallb (forallb (Spec.valid_match (fst (@detectAndCompute healthy 0))
                                     (fst (@detectAndCompute healthy 1))))
          (@knnMatch healthy (snd (@detectAndCompute healthy 0))
                     (snd (@detectAndCompute healthy 1)) 2) = true /\
  exists r, @get_matches healthy self0 0 1 = Ok r.
Proof.
  split; [vm_compute; reflexivity|].
  apply (@get_matches_returns_on_valid_indices healthy self0 0 1).
  vm_compute; reflexivity.
Defined.

(** Witness of X15. *)
Lemma at_most_the_matches_witness :
  @get_matches healthy self0 0 1 = Ok (Some (q_of 0, q_of 1)) /\
  length (q_of 0) <= length (@knnMatch healthy 0 1 2).
Proof.
  split; [vm_compute; reflexivity|].
  apply (@correspondences_are_at_most_the_matches healthy self0 0 1 (q_of 0) (q_of 1)).
  vm_compute; reflexivity.
Defined.

(** Witness of X16. *)
Lemma few_correspondences_witness :
  let s1 := @run short_entry (map (@tick short_entry) [0]) in
  @get_matches short_entry (vo s1) 0 1 = Ok (Some ([], [])) /\
  exists s', @iteration short_entry s1 (@tick short_entry 1) = Ok s' /\
             cur_pose s' = cur_pose s1 /\ vo s' = vo s1 /\
             camera_pose_list s' = camera_pose_list s1 ++ [cur_pose s1 ++ [Spec.affine_row]].
Proof.
  split; [vm_compute; reflexivity|].
  apply (@few_correspondences_keep_the_pose short_entry
           (@run short_entry (map (@tick short_entry) [0])) 0 (@tick short_entry 1) [] []).
  - vm_compute; reflexivity.
  - vm_compute; reflexivity.
  - vm_compute; reflexivity.
  - left. vm_compute. lia.
Defined.

(** Witness of X17. *)
Lemma key_q_witness :
  Z.land (key (@quit_tick healthy 1)) 255 = 113%Z /\
  @video_loop healthy (@initial healthy)
    ([@tick healthy 0] ++ @quit_tick healthy 1 :: [@tick healthy 2; @tick healthy 3])
  = @video_loop healthy (@initial healthy) ([@tick healthy 0] ++ [@quit_tick healthy 1]).
Proof.
  split; [reflexivity|].
  apply (@key_q_ends_the_loop healthy (@initial healthy) [@tick healthy 0]
           [@tick healthy 2; @tick healthy 3] (@quit_tick healthy 1)).
  reflexivity.
Defined.

(** Witness of X18. *)
Lemma recorded_poses_witness :
  let cap := map (@tick healthy) [0; 1; 2] in
  @main healthy cap = Ok (@run healthy cap) /\
  Forall Spec.homogeneous_pose (camera_pose_list (@run healthy cap)) /\
  estimated_path (@run healthy cap)
  = map Spec.ground_position (camera_pose_list (@run healthy cap)).
Proof.
  split; [vm_compute; reflexivity|].
  apply (@recorded_poses_are_homogeneous healthy (map (@tick healthy) [0; 1; 2])).
  vm_compute; reflexivity.
Defined.

(** Witness of X19. *)
Lemma calibration_witness :
  let cap := map (@tick healthy) [0; 1; 2] in
  @main healthy cap = Ok (@run healthy cap) /\
  K (vo (@run healthy cap)) = intrinsic /\
  P (vo (@run healthy cap)) = Np.matmul intrinsic (extrinsic (vo (@initial healthy))).
Proof.
  split; [vm_compute; reflexivity|].
  apply (@calibration_is_never_modified healthy (map (@tick healthy) [0; 1; 2])).
  vm_compute; reflexivity.
Defined.

(** Witness of X20. *)
Lemma world_points_witness :
  let cap := map (@tick healthy) [0; 1; 2] in
  @video_loop healthy (@initial healthy) cap = Ok (@run healthy cap) /\
  exists Qs,
    world_points (vo (@run healthy cap)) = world_points (vo (@initial healthy)) ++ Qs /\
    length Qs + length (camera_pose_list (@initial healthy))
    <= length (camera_pose_list (@run healthy cap)).
Proof.
  split; [vm_compute; reflexivity|].
  apply (@world_points_at_most_one_per_pair healthy (map (@tick healthy) [0; 1; 2])
           (@initial healthy)).
  vm_compute; reflexivity.
Defined.

(** Witness of X21. *)
Lemma every_kth_file_witness :
  Spec.joins_with_separator "frames" = true /\
  existsb Spec.starts_with_slash (@sorted_listdir featureless "frames") = false /\
  exists sliced,
    @_load_images featureless "frames" 2 = Ok (Spec.read_all (@imread featureless) sliced) /\
    forall i, nth_error sliced i
              = nth_error (map (Spec.path_join "frames") (@sorted_listdir featureless "frames"))
                          (i * Z.to_nat 2).
Proof.
  split; [reflexivity|]. split; [reflexivity|].
  apply (proj1 (proj2 (@load_images_reads_every_kth_file featureless "frames" 2%Z
                         eq_refl eq_refl))).
  lia.
Defined.
